(** * Quiz application: a shallow embedding of [streamlit_app.py]

    The development follows the layout of the Python module:

    - Python values, exceptions and the module's ambient state (database
      session, Streamlit session state, rendered widgets, log file) are
      gathered in [World], and effectful functions live in the state and
      exception monad [M];
    - [Question] is the declarative model of lines 50-76, with its check
      constraint;
    - [fetch_all_questions], [add_question], [parse_json_questions],
      [take_quiz], [submit_quiz], [review_answers] and
      [admin_add_questions] are translated one by one, keeping their names.

    What lies outside the module is kept as explicit input: the clock
    readings and widget values of one render ([Inputs], [FormInputs]), the
    storage backend's transient failures ([faults]), and the library
    functions [json.loads], [bytes.decode] and the database driver's
    rendering of non-text values (Section variables of [Admin]).  The
    same holds for the values that the key sequence of the table hands
    out ([keys]) and for the attributes that class [Question] inherits
    from the declarative base ([class_attribute]). *)

From stdpp Require Import gmap strings list fin_maps.
From Stdlib Require Import ZArith DecimalString Ascii.

Open Scope Z_scope.

(** ** Python values and exceptions *)

(** The exception classes that the module can meet.  [DBAPIError] stands
    for every error raised by the storage backend at commit or query time
    (integrity, data and operational errors alike);
    [StreamlitAPIException] is what a Streamlit widget raises on an
    argument it refuses; [OtherError] stands for any other subclass of
    [Exception] raised by a library function. *)
Inductive exn : Type :=
  | AttributeError
  | ValueError
  | IndexError
  | TypeError
  | JSONDecodeError
  | UnicodeDecodeError
  | DBAPIError
  | StreamlitAPIException
  | OtherError.

Global Instance exn_eq_dec : EqDecision exn.
Proof. solve_decision. Defined.

(** The values [json.loads] can produce.  A JSON object becomes a [dict]
    with string keys, an array a [list]. *)
#[warnings="-register-all"]
Inductive pyval : Type :=
  | PNone
  | PBool (b : bool)
  | PInt (z : Z)
  | PFloat (mantissa exponent : Z)
  | PStr (s : string)
  | PList (l : list pyval)
  | PDict (d : gmap string pyval).

(** Truthiness of a [str]: only the empty string is falsy. *)
Definition str_truthy (s : string) : bool :=
  match s with
  | EmptyString => false
  | String _ _ => true
  end.

(** [str.lower], on the ASCII range. *)
Definition lower_char (c : ascii) : ascii :=
  let n := nat_of_ascii c in
  if (65 <=? n)%nat && (n <=? 90)%nat then ascii_of_nat (n + 32) else c.

Fixpoint lower (s : string) : string :=
  match s with
  | EmptyString => EmptyString
  | String c s' => String (lower_char c) (lower s')
  end.

(** [needle in haystack] for two [str]: substring test. *)
Fixpoint is_substring (needle haystack : string) : bool :=
  String.prefix needle haystack
  || match haystack with
     | EmptyString => false
     | String _ rest => is_substring needle rest
     end.

(** [str(n)] for a non-negative [int]. *)
Definition str_of_nat (n : nat) : string :=
  NilZero.string_of_uint (Nat.to_uint n).

(** [str(z)] for an [int]. *)
Definition str_of_Z (z : Z) : string :=
  NilZero.string_of_int (Z.to_int z).

(** ** The [Question] model (lines 50-76) *)

(** A row of table [questions] as the quiz reads it: the text columns are
    [str], [explanation] is nullable. *)
Record Question : Type := mkQuestion {
  id : Z;
  question_text : string;
  option_a : string;
  option_b : string;
  option_c : string;
  option_d : string;
  correct_option : string;
  explanation : option string
}.

(** The four letters of the check constraint
    [correct_option IN ('A', 'B', 'C', 'D')], which are also the keys of
    the [options] dict of [take_quiz] (lines 224-229). *)
Definition option_keys : list string := ["A"; "B"; "C"; "D"].

Definition is_option_key (s : string) : bool :=
  bool_decide (s ∈ option_keys).

(** [correct_option_check], the table's check constraint. *)
Definition correct_option_check (q : Question) : bool :=
  is_option_key (correct_option q).

(** [getattr(question, name)] for the names the module builds, all of the
    shape ["option_" + letter.lower()]: the only attributes of a [Question]
    with that prefix are the four option columns; any other name raises
    [AttributeError]. *)
Definition getattr_option (q : Question) (name : string) : exn + string :=
  if String.eqb name "option_a" then inr (option_a q)
  else if String.eqb name "option_b" then inr (option_b q)
  else if String.eqb name "option_c" then inr (option_c q)
  else if String.eqb name "option_d" then inr (option_d q)
  else inl AttributeError.

(** A [Question] instance before it is flushed: built by the constructor
    call of line 132, which unpacks [question_data] into keyword arguments,
    its attributes hold whatever Python values the caller passed; an
    attribute that was not passed reads [None]. *)
Record QuestionObj : Type := mkQuestionObj {
  o_id : pyval;
  o_question_text : pyval;
  o_option_a : pyval;
  o_option_b : pyval;
  o_option_c : pyval;
  o_option_d : pyval;
  o_correct_option : pyval;
  o_explanation : pyval
}.

(** The eight mapped columns of lines 65-72. *)
Definition column_names : gset string :=
  {[ "id"; "question_text"; "option_a"; "option_b"; "option_c"; "option_d";
     "correct_option"; "explanation" ]}.

(** ** Ambient state *)

(** [st.session_state]: each key may be absent. *)
Record SessionState : Type := mkSessionState {
  current_question : option Z;
  answers : option (gmap Z string);
  start_time : option Z;
  time_limit : option Z
}.

(** One row of the results table built by [submit_quiz] (lines 274-280). *)
Record ResultRecord : Type := mkResult {
  r_question : string;
  r_your_answer : string;
  r_correct_answer : string;
  r_explanation : option string;
  r_result : string
}.

(** What the page shows, in rendering order.  Texts are those of the
    source, without the pictographs that open some of them. *)
Inductive UiEvent : Type :=
  | UiWarning (msg : string)
  | UiSuccess (msg : string)
  | UiError (msg : string)
  | UiHeader (msg : string)
  | UiSubheader (msg : string)
  | UiWrite (msg : string)
  | UiMarkdown (msg : string)
  | UiSidebarRemaining (microseconds : Z)
  | UiDataframe (rows : list ResultRecord).

(** The lines written to [quiz_app.log].  The text of a caught exception
    is not modelled; each entry keeps the values the source formats. *)
Inductive LogEntry : Type :=
  | LogFetched (n : nat)
  | LogFetchError
  | LogAdded (new_id : Z)
  | LogAddError (e : exn)
  | LogParsed (n : nat)
  | LogNotAList
  | LogJSONDecodeError
  | LogSavedProgress
  | LogSubmitted (score total : nat)
  | LogMissingFields (q : pyval)
  | LogUploadError (e : exn).

(** The whole state the module acts on.
    - [table]: the committed rows of [questions], in insertion order;
    - [pending]: objects added to the SQLAlchemy session and not yet
      flushed;
    - [faults]: the backend's transient failures, one entry consumed by
      each statement sent to it ([true]: the statement fails); an empty
      schedule means a healthy backend;
    - [keys]: the values that the sequence behind the autoincrement key
      will hand out, in order, one to each INSERT that leaves [id] to the
      database.  The module has no hold on them: the sequence moves on
      also when the row is then refused, and a row that brings its own
      [id] leaves it where it is.  An empty schedule is a sequence that
      has no value left;
    - [sstate], [ui], [log]: Streamlit's session state, the widgets
      rendered so far and the log file. *)
Record World : Type := mkWorld {
  table : list Question;
  pending : list QuestionObj;
  faults : list bool;
  keys : list Z;
  sstate : SessionState;
  ui : list UiEvent;
  log : list LogEntry
}.

Definition set_table (t : list Question) (w : World) : World :=
  mkWorld t (pending w) (faults w) (keys w) (sstate w) (ui w) (log w).
Definition set_pending (p : list QuestionObj) (w : World) : World :=
  mkWorld (table w) p (faults w) (keys w) (sstate w) (ui w) (log w).
Definition set_faults (f : list bool) (w : World) : World :=
  mkWorld (table w) (pending w) f (keys w) (sstate w) (ui w) (log w).
Definition set_keys (ks : list Z) (w : World) : World :=
  mkWorld (table w) (pending w) (faults w) ks (sstate w) (ui w) (log w).
Definition set_sstate (s : SessionState) (w : World) : World :=
  mkWorld (table w) (pending w) (faults w) (keys w) s (ui w) (log w).
Definition set_ui (u : list UiEvent) (w : World) : World :=
  mkWorld (table w) (pending w) (faults w) (keys w) (sstate w) u (log w).
Definition set_log (l : list LogEntry) (w : World) : World :=
  mkWorld (table w) (pending w) (faults w) (keys w) (sstate w) (ui w) l.

Definition set_current_question (i : Z) (s : SessionState) : SessionState :=
  mkSessionState (Some i) (answers s) (start_time s) (time_limit s).
Definition set_answers (a : gmap Z string) (s : SessionState) : SessionState :=
  mkSessionState (current_question s) (Some a) (start_time s) (time_limit s).
Definition set_start_time (t : Z) (s : SessionState) : SessionState :=
  mkSessionState (current_question s) (answers s) (Some t) (time_limit s).
Definition set_time_limit (m : Z) (s : SessionState) : SessionState :=
  mkSessionState (current_question s) (answers s) (start_time s) (Some m).

(** ** The state and exception monad *)

(** A computation runs from a world and ends in a world, either with a
    value or with a raised exception; the effects performed before a
    [raise] stay. *)
Definition M (A : Type) : Type := World -> (exn + A) * World.

Definition ret {A} (a : A) : M A := fun w => (inr a, w).
Definition raise {A} (e : exn) : M A := fun w => (inl e, w).
Definition bind {A B} (m : M A) (k : A -> M B) : M B :=
  fun w =>
    match m w with
    | (inr a, w') => k a w'
    | (inl e, w') => (inl e, w')
    end.

(** [try: m except <classes>: h], where [catches e] tells whether [e]
    belongs to the classes of the [except] clause. *)
Definition try_except {A} (m : M A) (catches : exn -> bool)
    (h : exn -> M A) : M A :=
  fun w =>
    match m w with
    | (inr a, w') => (inr a, w')
    | (inl e, w') => if catches e then h e w' else (inl e, w')
    end.

(** [except Exception]: every class of [exn] derives from it. *)
Definition any_exception (e : exn) : bool := true.

Definition lift {A} (r : exn + A) : M A := fun w => (r, w).
Definition get_world : M World := fun w => (inr w, w).
Definition modify (f : World -> World) : M unit := fun w => (inr tt, f w).

Notation "'let!' x ':=' m 'in' k" := (bind m (fun x => k))
  (at level 10, x pattern, m at level 100, k at level 200).
Notation "m '>>;' k" := (bind m (fun _ => k))
  (at level 80, right associativity).

(** [st.<widget>(...)] and [logger.<level>(...)]. *)
Definition st_show (e : UiEvent) : M unit :=
  modify (fun w => set_ui (ui w ++ [e]) w).
Definition logger (e : LogEntry) : M unit :=
  modify (fun w => set_log (log w ++ [e]) w).

(** Reading a key of [st.session_state] that is absent raises
    [AttributeError]. *)
Definition read_state {A} (field : SessionState -> option A) : M A :=
  fun w =>
    match field (sstate w) with
    | Some a => (inr a, w)
    | None => (inl AttributeError, w)
    end.
Definition modify_state (f : SessionState -> SessionState) : M unit :=
  modify (fun w => set_sstate (f (sstate w)) w).

(** ** Scoring and review (lines 258-306) *)

(** The default of [answers.get(question.id, "No Answer")]. *)
Definition no_answer : string := "No Answer".

(** [getattr(question, f'option_{letter.lower()}')]. *)
Definition option_text (q : Question) (letter : string) : exn + string :=
  getattr_option q ("option_" +:+ lower letter).

(** The body of the loop of [submit_quiz] for one question (lines 270-280):
    whether the answer is correct, and the result row.  The row's option
    texts come from the dynamic attribute lookup, which may raise. *)
Definition score_question (a : gmap Z string) (q : Question)
    : exn + (bool * ResultRecord) :=
  let user_answer := default no_answer (a !! id q) in
  let correct := String.eqb user_answer (correct_option q) in
  match (if negb (String.eqb user_answer no_answer)
         then match option_text q user_answer with
              | inr t => inr (user_answer +:+ ": " +:+ t)
              | inl e => inl e
              end
         else inr no_answer) with
  | inl e => inl e
  | inr your =>
      match option_text q (correct_option q) with
      | inl e => inl e
      | inr t =>
          inr (correct,
               mkResult (question_text q) your
                 (correct_option q +:+ ": " +:+ t) (explanation q)
                 (if correct then "Correct" else "Incorrect"))
      end
  end.

(** The [for] loop of lines 269-280, threading [score] and [results];
    the answers are read from the session state at each iteration. *)
Fixpoint score_loop (questions : list Question) (score : nat)
    (results : list ResultRecord) : M (nat * list ResultRecord) :=
  match questions with
  | [] => ret (score, results)
  | q :: rest =>
      let! a := read_state answers in
      let! (correct, row) := lift (score_question a q) in
      score_loop rest (if correct : bool then S score else score)
        (results ++ [row])
  end.

Definition submit_quiz (questions : list Question) : M unit :=
  let! (score, results) := score_loop questions 0%nat [] in
  st_show (UiHeader "Quiz Results") >>;
  st_show (UiWrite ("**Your Score:** " +:+ str_of_nat score +:+ " / "
                    +:+ str_of_nat (length questions))) >>;
  st_show (UiDataframe results) >>;
  logger (LogSubmitted score (length questions)).

(** The body of the loop of [review_answers] for the [idx]-th question
    (lines 299-306). *)
Definition review_question (idx : nat) (q : Question) : M unit :=
  st_show (UiSubheader ("Question " +:+ str_of_nat idx +:+ ": "
                        +:+ question_text q)) >>;
  let! a := read_state answers in
  let user_answer := default no_answer (a !! id q) in
  let correct := String.eqb user_answer (correct_option q) in
  let! your :=
    (if negb (String.eqb user_answer no_answer)
     then let! t := lift (option_text q user_answer) in
          ret ("**Your Answer:** " +:+ user_answer +:+ ": " +:+ t)
     else ret "**Your Answer:** No Answer") in
  st_show (UiWrite your) >>;
  let! t := lift (option_text q (correct_option q)) in
  st_show (UiWrite ("**Correct Answer:** " +:+ correct_option q +:+ ": " +:+ t)) >>;
  st_show (UiWrite ("**Explanation:** " +:+ default "None" (explanation q))) >>;
  st_show (UiWrite ("**Result:** "
                    +:+ if correct then "Correct" else "Incorrect")) >>;
  st_show (UiMarkdown "---").

(** [for idx, question in enumerate(questions, 1)]. *)
Fixpoint review_loop (idx : nat) (questions : list Question) : M unit :=
  match questions with
  | [] => ret tt
  | q :: rest =>
      review_question idx q >>;
      review_loop (S idx) rest
  end.

Definition review_answers (questions : list Question) : M unit :=
  st_show (UiHeader "Review Your Answers") >>;
  review_loop 1 questions.

(** ** Reading the store (lines 86-118) *)

(** One statement is sent to the backend: the head of the fault schedule
    tells whether it fails. *)
Definition backend_fails : M bool :=
  fun w =>
    match faults w with
    | [] => (inr false, w)
    | f :: rest => (inr f, set_faults rest w)
    end.

(** [SessionLocal()]: a new session, with nothing pending, over the same
    database.  Creating it sends nothing to the backend, so the [except]
    branch of lines 96-99 is not taken. *)
Definition get_db_session : M unit := modify (set_pending []).

Definition fetch_all_questions : M (list Question) :=
  try_except
    (let! failed := backend_fails in
     if failed : bool then raise DBAPIError
     else
       let! w := get_world in
       let questions := table w in
       logger (LogFetched (length questions)) >>;
       ret questions)
    any_exception
    (fun e =>
       logger LogFetchError >>;
       st_show (UiError "Failed to retrieve questions.") >>;
       ret []).

(** ** The quiz controller (lines 185-256) *)

(** What one render receives from outside: two readings of the clock, in
    microseconds ([datetime.now()] at lines 201 and 206), and the values
    returned by the widgets.  [st.radio] returns one of the keys it was
    given, or [None] when nothing is selected. *)
Inductive OptionKey : Type := KeyA | KeyB | KeyC | KeyD.

Definition key_str (k : OptionKey) : string :=
  match k with
  | KeyA => "A"
  | KeyB => "B"
  | KeyC => "C"
  | KeyD => "D"
  end.

Record Inputs : Type := mkInputs {
  now_init : Z;
  now : Z;
  radio : option OptionKey;
  btn_previous : bool;
  btn_save : bool;
  btn_next : bool;
  btn_submit : bool;
  chk_review : bool
}.

(** [timedelta(minutes=m)] in microseconds. *)
Definition minutes (m : Z) : Z := m * 60000000.

(** [questions[i]] with Python's indexing: a negative index counts from
    the end, an index out of range raises [IndexError]. *)
Definition py_index {A} (l : list A) (i : Z) : exn + A :=
  let n := Z.of_nat (length l) in
  let j := if i <? 0 then i + n else i in
  if (0 <=? j) && (j <? n)
  then match l !! Z.to_nat j with
       | Some x => inr x
       | None => inl IndexError
       end
  else inl IndexError.

(** [list(options.keys()).index(v)]: position of the first occurrence,
    [ValueError] when there is none. *)
Fixpoint list_index (v : string) (l : list string) : exn + Z :=
  match l with
  | [] => inl ValueError
  | x :: rest =>
      if String.eqb x v then inr 0
      else match list_index v rest with
           | inr i => inr (i + 1)
           | inl e => inl e
           end
  end.

(** The [index] argument of [st.radio] (line 230). *)
Definition radio_index (a : gmap Z string) (q : Question) : exn + Z :=
  match a !! id q with
  | None => inr (-1)
  | Some v => list_index v option_keys
  end.

(** Lines 196-203: each key is set only when absent. *)
Definition init_session_state (inp : Inputs) : M unit :=
  modify_state (fun s =>
    if current_question s is None then set_current_question 0 s else s) >>;
  modify_state (fun s =>
    if answers s is None then set_answers ∅ s else s) >>;
  modify_state (fun s =>
    if start_time s is None then set_start_time (now_init inp) s else s) >>;
  modify_state (fun s =>
    if time_limit s is None then set_time_limit 15 s else s).

(** [st.radio(label, options, index=index)]: Streamlit refuses an index
    that is not in [0, len(options)) with [StreamlitAPIException]
    ("Radio index must be between 0 and length of options"); otherwise
    the call returns the value of the widget. *)
Definition st_radio (options : list string) (index : Z)
    (value : option OptionKey) : M (option OptionKey) :=
  if (0 <=? index) && (index <? Z.of_nat (length options))
  then ret value
  else raise StreamlitAPIException.

(** Lines 219-234: the current question, its options and the recording
    of the selected one. *)
Definition display_question (inp : Inputs) (questions : list Question)
    : M unit :=
  let! cur := read_state current_question in
  let! question := lift (py_index questions cur) in
  st_show (UiHeader ("Question " +:+ str_of_Z (cur + 1) +:+ " of "
                     +:+ str_of_nat (length questions))) >>;
  st_show (UiWrite (question_text question)) >>;
  let! a := read_state answers in
  let! index := lift (radio_index a question) in
  let! selected := st_radio option_keys index (radio inp) in
  match selected with
  | Some selected =>
      let! a := read_state answers in
      modify_state (set_answers (<[id question := key_str selected]> a))
  | None => ret tt
  end.

(** Lines 236-249: the navigation buttons.  Each condition reads the
    index as the previous button left it. *)
Definition navigation_buttons (inp : Inputs) (questions : list Question)
    : M unit :=
  let n := Z.of_nat (length questions) in
  let! cur := read_state current_question in
  (if btn_previous inp && (cur >? 0)
   then modify_state (set_current_question (cur - 1))
   else ret tt) >>;
  (if btn_save inp
   then st_show (UiSuccess "Your progress has been saved.") >>;
        logger LogSavedProgress
   else ret tt) >>;
  let! cur := read_state current_question in
  if btn_next inp && (cur <? n - 1)
  then modify_state (set_current_question (cur + 1))
  else if btn_submit inp && (cur =? n - 1)
  then submit_quiz questions
  else ret tt.

Definition take_quiz (inp : Inputs) : M unit :=
  get_db_session >>;
  let! questions := fetch_all_questions in
  if questions is [] then
    st_show (UiWarning
      "No questions available. Please contact the administrator.")
  else
    let n := Z.of_nat (length questions) in
    init_session_state inp >>;
    let! start := read_state start_time in
    let! limit := read_state time_limit in
    let elapsed_time := now inp - start in
    let remaining_time := minutes limit - elapsed_time in
    if remaining_time <=? 0 then
      modify_state (set_current_question n) >>;
      st_show (UiSuccess "Time's up! Submitting your answers...") >>;
      submit_quiz questions
    else
      st_show (UiSidebarRemaining remaining_time) >>;
      let! cur := read_state current_question in
      (if cur <? n
       then display_question inp questions >>;
            navigation_buttons inp questions
       else st_show (UiSuccess "You have completed the quiz!") >>;
            submit_quiz questions) >>;
      if chk_review inp then review_answers questions else ret tt.

(** ** Writing the store and the admin page (lines 120-163, 308-375) *)

Inductive AddMethod : Type := SingleEntry | BulkEntry.

(** The widget values of one render of the admin page.  The uploaded
    file, when there is one, is given by its bytes. *)
Record FormInputs : Type := mkFormInputs {
  add_method : AddMethod;
  f_question_text : string;
  f_option_a : string;
  f_option_b : string;
  f_option_c : string;
  f_option_d : string;
  f_correct_option : string;
  f_explanation : string;
  submitted : bool;
  uploaded_file : option string
}.

(** The keys checked at line 365. *)
Definition required_fields : list string :=
  ["question_text"; "option_a"; "option_b"; "option_c"; "option_d";
   "correct_option"; "explanation"].

(** [field in q] for a [str] field: key membership in a [dict], element
    equality in a [list], substring in a [str]; the other values are not
    containers and raise [TypeError]. *)
Definition py_in (field : string) (q : pyval) : exn + bool :=
  match q with
  | PDict d => inr (bool_decide (is_Some (d !! field)))
  | PList l =>
      inr (existsb (fun x => match x with
                             | PStr s => String.eqb s field
                             | _ => false
                             end) l)
  | PStr s => inr (is_substring field s)
  | PNone | PBool _ | PInt _ | PFloat _ _ => inl TypeError
  end.

(** [all(field in q for field in fields)]: stops at the first [False]. *)
Fixpoint all_in (fields : list string) (q : pyval) : exn + bool :=
  match fields with
  | [] => inr true
  | f :: rest =>
      match py_in f q with
      | inl e => inl e
      | inr false => inr false
      | inr true => all_in rest q
      end
  end.

Section Admin.

(** Outside the module: which names other than the eight columns are
    attributes of class [Question] (those of its body, [__tablename__]
    and [__table_args__], and those it has from the declarative base and
    from [object], such as [metadata] and [registry]); how the database
    driver renders a Python value that is neither [None] nor of the
    column's Python type when it is bound to a text or integer column
    ([None]: it is rejected); the decoding of the uploaded bytes and the
    JSON parser. *)
Variable class_attribute : string -> bool.
Variable adapt_text : pyval -> option string.
Variable adapt_int : pyval -> option Z.
Variable utf8_decode : string -> exn + string.
Variable json_loads : string -> exn + pyval.

(** [hasattr(Question, key)]. *)
Definition hasattr_Question (key : string) : bool :=
  bool_decide (key ∈ column_names) || class_attribute key.

(** The keyword-argument constructor of the declarative base (line 132):
    the argument must be a mapping, and each key an attribute of the
    class, else [TypeError]; each value is then set on the new object.
    Only the eight mapped attributes reach the row. *)
Definition new_Question (question_data : pyval) : exn + QuestionObj :=
  match question_data with
  | PDict d =>
      if forallb hasattr_Question (elements (dom d))
      then
        let attr k := default PNone (d !! k) in
        inr (mkQuestionObj (attr "id") (attr "question_text")
               (attr "option_a") (attr "option_b") (attr "option_c")
               (attr "option_d") (attr "correct_option")
               (attr "explanation"))
      else inl TypeError
  | _ => inl TypeError
  end.

(** The range of the [Integer] column [id]. *)
Definition in_int4 (z : Z) : bool :=
  (-2147483648 <=? z) && (z <=? 2147483647).

(** A column declared [nullable=False] of type [Text]. *)
Definition text_not_null (v : pyval) : option string :=
  match v with
  | PNone => None
  | PStr s => Some s
  | _ => adapt_text v
  end.

(** The nullable [Text] column [explanation]. *)
Definition text_nullable (v : pyval) : option (option string) :=
  match v with
  | PNone => Some None
  | PStr s => Some (Some s)
  | _ => Some <$> adapt_text v
  end.

(** The primary key of a new row, with the key schedule that is left.
    An object without [id] gets the next value of the sequence; an
    object that brings an [id] keeps it and leaves the sequence alone.
    Either way the key must fit the 32-bit column and be the key of no
    stored row, else the row is refused. *)
Definition primary_key (t : list Question) (ks : list Z) (v : pyval)
    : option Z * list Z :=
  let stored z :=
    if in_int4 z && negb (bool_decide (z ∈ id <$> t))
    then Some z else None in
  match v with
  | PNone =>
      match ks with
      | k :: ks' => (stored k, ks')
      | [] => (None, [])
      end
  | PInt z => (stored z, ks)
  | _ => (adapt_int v ≫= stored, ks)
  end.

(** Assignment of a [str] to a [VARCHAR(1)] column (PostgreSQL, line
    37): a string of more than one character is refused, unless the
    characters in excess are all spaces, which are then cut off. *)
Fixpoint all_spaces (s : string) : bool :=
  match s with
  | EmptyString => true
  | String c rest => Ascii.eqb c " " && all_spaces rest
  end.

Definition varchar1 (s : string) : option string :=
  match s with
  | EmptyString => Some EmptyString
  | String c rest =>
      if all_spaces rest then Some (String c EmptyString) else None
  end.

(** [correct_option], of type [String(1)] and under the check
    constraint of the table, which sees the value as the column holds
    it: a [str] is stored when, cut to the column, it is one of the four
    letters (the driver renders no value of another Python type as a
    single letter). *)
Definition checked_option (v : pyval) : option string :=
  match v with
  | PStr s =>
      k ← varchar1 s;
      if is_option_key k then Some k else None
  | _ => None
  end.

(** The INSERT of one object into table [t]: the new row, or [None]
    when a constraint of lines 65-76 is violated, and the key schedule
    that is left. *)
Definition insert_row (t : list Question) (ks : list Z) (o : QuestionObj)
    : option Question * list Z :=
  let (key, ks') := primary_key t ks (o_id o) in
  (i ← key;
   qt ← text_not_null (o_question_text o);
   a ← text_not_null (o_option_a o);
   b ← text_not_null (o_option_b o);
   c ← text_not_null (o_option_c o);
   d ← text_not_null (o_option_d o);
   co ← checked_option (o_correct_option o);
   ex ← text_nullable (o_explanation o);
   Some (mkQuestion i qt a b c d co ex),
   ks').

(** The flush of the pending objects, in the order they were added. *)
Fixpoint flush (t : list Question) (ks : list Z) (objs : list QuestionObj)
    : option (list Question) * list Z :=
  match objs with
  | [] => (Some t, ks)
  | o :: rest =>
      match insert_row t ks o with
      | (Some row, ks') => flush (t ++ [row]) ks' rest
      | (None, ks') => (None, ks')
      end
  end.

Definition session_add (o : QuestionObj) : M unit :=
  modify (fun w => set_pending (pending w ++ [o]) w).

(** [session.commit()]: the pending objects are written in one
    transaction; when the backend fails or a row is refused the
    committed table is as before and the exception is raised.  The keys
    that the sequence handed out are spent also then. *)
Definition session_commit : M unit :=
  let! failed := backend_fails in
  if failed : bool then raise DBAPIError
  else
    let! w := get_world in
    match flush (table w) (keys w) (pending w) with
    | (Some t, ks) =>
        modify (fun w => set_pending [] (set_keys ks (set_table t w)))
    | (None, ks) =>
        modify (set_keys ks) >>;
        raise DBAPIError
    end.

(** [question.id] at line 135.  The commit has expired the attributes
    of the object ([expire_on_commit] is the default of the
    [sessionmaker] of line 41), so reading one sends a SELECT to the
    backend, which returns the key of the row written last. *)
Definition question_id : M Z :=
  let! failed := backend_fails in
  if failed : bool then raise DBAPIError
  else
    let! w := get_world in
    ret (default 0 (id <$> last (table w))).

Definition session_rollback : M unit := modify (set_pending []).

(** Lines 120-140.  The read of [question.id] is inside the [try]: when
    it fails, the handler runs although the row is committed. *)
Definition add_question (question_data : pyval) : M bool :=
  try_except
    (let! question := lift (new_Question question_data) in
     session_add question >>;
     session_commit >>;
     let! new_id := question_id in
     logger (LogAdded new_id) >>;
     ret true)
    any_exception
    (fun e =>
       session_rollback >>;
       logger (LogAddError e) >>;
       ret false).

(** Lines 142-163.  Only [json.JSONDecodeError] is caught. *)
Definition parse_json_questions (json_data : string) : M (list pyval) :=
  try_except
    (let! questions := lift (json_loads json_data) in
     match questions with
     | PList l =>
         logger (LogParsed (length l)) >>;
         ret l
     | _ =>
         logger LogNotAList >>;
         ret []
     end)
    (fun e => bool_decide (e = JSONDecodeError))
    (fun e =>
       logger LogJSONDecodeError >>;
       st_show (UiError "Invalid JSON format.") >>;
       ret []).

(** The loop of lines 363-371. *)
Fixpoint bulk_loop (questions : list pyval) (success_count : nat)
    : M nat :=
  match questions with
  | [] => ret success_count
  | q :: rest =>
      let! valid := lift (all_in required_fields q) in
      if valid : bool then
        let! success := add_question q in
        bulk_loop rest (if success : bool then S success_count
                        else success_count)
      else
        logger (LogMissingFields q) >>;
        bulk_loop rest success_count
  end.

(** The dict of lines 336-344. *)
Definition form_question_data (f : FormInputs) : pyval :=
  PDict (list_to_map
    [("question_text", PStr (f_question_text f));
     ("option_a", PStr (f_option_a f));
     ("option_b", PStr (f_option_b f));
     ("option_c", PStr (f_option_c f));
     ("option_d", PStr (f_option_d f));
     ("correct_option", PStr (f_correct_option f));
     ("explanation", PStr (f_explanation f))]).

(** Lines 318-353. *)
Definition single_entry (f : FormInputs) : M unit :=
  st_show (UiSubheader "Add a New Question") >>;
  if submitted f then
    let question_data := form_question_data f in
    if forallb str_truthy
         [f_question_text f; f_option_a f; f_option_b f; f_option_c f;
          f_option_d f; f_correct_option f]
    then
      let! success := add_question question_data in
      if success : bool
      then st_show (UiSuccess "Question added successfully!")
      else st_show (UiError
             "Failed to add question. Check logs for details.")
    else st_show (UiError "Please fill in all fields.")
  else ret tt.

(** Lines 355-375. *)
Definition bulk_entry (f : FormInputs) : M unit :=
  match uploaded_file f with
  | Some bytes =>
      try_except
        (let! json_data := lift (utf8_decode bytes) in
         let! questions := parse_json_questions json_data in
         if questions is [] then ret tt
         else
           let! success_count := bulk_loop questions 0%nat in
           st_show (UiSuccess ("Successfully added "
                               +:+ str_of_nat success_count
                               +:+ " questions.")))
        any_exception
        (fun e =>
           logger (LogUploadError e) >>;
           st_show (UiError "Failed to process the uploaded file."))
  | None => ret tt
  end.

Definition admin_add_questions (f : FormInputs) : M unit :=
  st_show (UiHeader "Admin Panel: Add New Questions") >>;
  get_db_session >>;
  match add_method f with
  | SingleEntry => single_entry f
  | BulkEntry => bulk_entry f
  end.

End Admin.

(** ** Specification-side definitions *)

(** The number of questions whose recorded answer is the correct one. *)
Definition count_correct (a : gmap Z string) (questions : list Question)
    : nat :=
  length (filter (λ q, a !! id q = Some (correct_option q)) questions).

(** The loop of [submit_quiz] run against a fixed answers map [a]. *)
Fixpoint score_fold (a : gmap Z string) (questions : list Question)
    (score : nat) (results : list ResultRecord)
    : exn + (nat * list ResultRecord) :=
  match questions with
  | [] => inr (score, results)
  | q :: rest =>
      match score_question a q with
      | inl e => inl e
      | inr (correct, row) =>
          score_fold a rest (if correct then S score else score)
            (results ++ [row])
      end
  end.

(** The world after [submit_quiz] has shown and logged a score. *)
Definition report_score (score : nat) (results : list ResultRecord)
    (questions : list Question) (w : World) : World :=
  set_log (log w ++ [LogSubmitted score (length questions)])
    (set_ui (ui w ++ [UiHeader "Quiz Results";
                      UiWrite ("**Your Score:** " +:+ str_of_nat score +:+ " / "
                               +:+ str_of_nat (length questions));
                      UiDataframe results]) w).


(** Sample data: three stored questions, and a visitor who answered the
    first (rightly) and the third (wrongly). *)
Definition sample_questions : list Question :=
  [mkQuestion 1 "2 + 2 = ?" "3" "4" "5" "6" "B" None;
   mkQuestion 2 "Largest planet?" "Mars" "Venus" "Earth" "Jupiter" "D"
     (Some "Jupiter is the largest.");
   mkQuestion 3 "Vowel?" "a" "b" "c" "d" "A" (Some "")].

Definition sample_answers : gmap Z string := {[ 1 := "B"; 3 := "C" ]}.

Definition empty_state : SessionState := mkSessionState None None None None.

Definition sample_state : SessionState :=
  mkSessionState (Some 2) (Some sample_answers) (Some 0) (Some 15).

(** The sequence has handed out 1, 2 and 3. *)
Definition sample_keys : list Z := [4; 5; 6; 7].

Definition sample_world : World :=
  mkWorld sample_questions [] [] sample_keys sample_state [] [].

(** Whether a record carries a [correct_option] that the check constraint
    accepts: it is a dict whose entry is one of the four letters. *)
Definition valid_correct_option (question_data : pyval) : bool :=
  match question_data with
  | PDict d =>
      match d !! "correct_option" with
      | Some (PStr k) => is_option_key k
      | _ => false
      end
  | _ => false
  end.

(** Whether a record carries a [correct_option] that the table stores:
    it is a dict whose entry is a [str] made of one of the four letters
    followed by spaces only (none, as a rule). *)
Definition padded_letter (s : string) : bool :=
  match s with
  | EmptyString => false
  | String c rest => is_option_key (String c EmptyString) && all_spaces rest
  end.

Definition stored_correct_option (question_data : pyval) : bool :=
  match question_data with
  | PDict d =>
      match d !! "correct_option" with
      | Some (PStr s) => padded_letter s
      | _ => false
      end
  | _ => false
  end.

(** The values on which [in] is defined: dicts, lists and strings. *)
Definition is_container (q : pyval) : bool :=
  match q with
  | PDict _ | PList _ | PStr _ => true
  | _ => false
  end.

Definition is_list (v : pyval) : bool :=
  match v with
  | PList _ => true
  | _ => false
  end.

(** A record passes field validation when each of the seven required
    fields is in it; for a dict, when each is one of its keys. *)
Definition validateRecord (q : pyval) : bool :=
  forallb (λ f, bool_decide (py_in f q = inr true)) required_fields.

(** K, the number of records of a batch that fail field validation. *)
Definition invalid_records (questions : list pyval) : nat :=
  length (List.filter (λ q, negb (validateRecord q)) questions).

(** Reading the log: each call of [add_question] writes exactly one line,
    [LogAdded] when it returns [True] and [LogAddError] otherwise; a record
    skipped by the bulk loop writes [LogMissingFields]. *)
Definition is_attempt (e : LogEntry) : bool :=
  match e with
  | LogAdded _ | LogAddError _ => true
  | _ => false
  end.

Definition is_success (e : LogEntry) : bool :=
  match e with
  | LogAdded _ => true
  | _ => false
  end.

Definition is_skip (e : LogEntry) : bool :=
  match e with
  | LogMissingFields _ => true
  | _ => false
  end.

Definition count_log (p : LogEntry → bool) (l : list LogEntry) : nat :=
  length (List.filter p l).

(** The six fields that the single-entry form requires (line 346). *)
Definition form_required (f : FormInputs) : list string :=
  [f_question_text f; f_option_a f; f_option_b f; f_option_c f;
   f_option_d f; f_correct_option f].

(** The message of line 372. *)
Definition added_message (n : nat) : UiEvent :=
  UiSuccess ("Successfully added " +:+ str_of_nat n +:+ " questions.").

(** Sample uploads.  [sample_json_loads] is [json.loads] on the few texts
    listed in [sample_payloads]; the one other text used below, an
    unclosed bracket, is malformed JSON. *)
Definition dquote : string := String (ascii_of_nat 34) EmptyString.

Definition json_string (s : string) : string := dquote +:+ s +:+ dquote.

Definition json_member (k v : string) : string :=
  json_string k +:+ ": " +:+ json_string v.

Definition sample_record_text : string :=
  "{" +:+ json_member "question_text" "1 + 1 = ?"
  +:+ ", " +:+ json_member "option_a" "1"
  +:+ ", " +:+ json_member "option_b" "2"
  +:+ ", " +:+ json_member "option_c" "3"
  +:+ ", " +:+ json_member "option_d" "4"
  +:+ ", " +:+ json_member "correct_option" "B"
  +:+ ", " +:+ json_member "explanation" "Count." +:+ "}".

Definition sample_record : pyval :=
  PDict (list_to_map
    [("question_text", PStr "1 + 1 = ?"); ("option_a", PStr "1");
     ("option_b", PStr "2"); ("option_c", PStr "3"); ("option_d", PStr "4");
     ("correct_option", PStr "B"); ("explanation", PStr "Count.")]).

(** The same record without its explanation. *)
Definition incomplete_record_text : string :=
  "{" +:+ json_member "question_text" "1 + 1 = ?"
  +:+ ", " +:+ json_member "option_a" "1"
  +:+ ", " +:+ json_member "option_b" "2"
  +:+ ", " +:+ json_member "option_c" "3"
  +:+ ", " +:+ json_member "option_d" "4"
  +:+ ", " +:+ json_member "correct_option" "B" +:+ "}".

Definition incomplete_record : pyval :=
  PDict (list_to_map
    [("question_text", PStr "1 + 1 = ?"); ("option_a", PStr "1");
     ("option_b", PStr "2"); ("option_c", PStr "3"); ("option_d", PStr "4");
     ("correct_option", PStr "B")]).

(** A complete record whose [correct_option] is not a letter of the
    constraint. *)
Definition bad_option_record : pyval :=
  PDict (list_to_map
    [("question_text", PStr "1 + 1 = ?"); ("option_a", PStr "1");
     ("option_b", PStr "2"); ("option_c", PStr "3"); ("option_d", PStr "4");
     ("correct_option", PStr "E"); ("explanation", PStr "Count.")]).

(** A complete record whose [correct_option] is the letter A followed
    by a space. *)
Definition padded_option_record : pyval :=
  PDict (list_to_map
    [("question_text", PStr "1 + 1 = ?"); ("option_a", PStr "2");
     ("option_b", PStr "1"); ("option_c", PStr "3"); ("option_d", PStr "4");
     ("correct_option", PStr "A "); ("explanation", PStr "Count.")]).

Definition payload_object : string := "{}".
Definition payload_empty_list : string := "[]".
Definition payload_malformed : string := "[".
Definition payload_one : string := "[" +:+ sample_record_text +:+ "]".
Definition payload_one_of_two : string :=
  "[" +:+ sample_record_text +:+ ", " +:+ incomplete_record_text +:+ "]".
Definition payload_number_first : string :=
  "[5, " +:+ sample_record_text +:+ "]".

Definition sample_payloads : list (string * pyval) :=
  [(payload_object, PDict ∅);
   (payload_empty_list, PList []);
   (payload_one, PList [sample_record]);
   (payload_one_of_two, PList [sample_record; incomplete_record]);
   (payload_number_first, PList [PInt 5; sample_record])].

Definition sample_json_loads (json_data : string) : exn + pyval :=
  match List.find (λ p, String.eqb p.1 json_data) sample_payloads with
  | Some p => inr p.2
  | None => inl JSONDecodeError
  end.

(** The sample files hold ASCII text, which decodes to itself. *)
Definition sample_utf8_decode (bytes : string) : exn + string := inr bytes.

(** The attributes of the class that are no columns, as far as the
    samples go: the two of the class body and two of the declarative
    base. *)
Definition sample_class_attribute (key : string) : bool :=
  bool_decide (key ∈ ["__tablename__"; "__table_args__"; "metadata";
                      "registry"]).

(** A driver that adapts no value of a foreign type. *)
Definition no_adapt_text (v : pyval) : option string := None.
Definition no_adapt_int (v : pyval) : option Z := None.

Definition upload (bytes : string) : FormInputs :=
  mkFormInputs BulkEntry "" "" "" "" "" "" "" false (Some bytes).

Definition sample_form (option_c : string) : FormInputs :=
  mkFormInputs SingleEntry "1 + 1 = ?" "1" "2" option_c "4" "B" "Count."
    true None.

Definition admin_world : World :=
  mkWorld sample_questions [] [] sample_keys empty_state [] [].

(** *** The quiz controller *)

(** The session state once the keys of lines 196-203 are set. *)
Definition initialized (inp : Inputs) (s : SessionState) : SessionState :=
  mkSessionState
    (Some (default 0 (current_question s)))
    (Some (default ∅ (answers s)))
    (Some (default (now_init inp) (start_time s)))
    (Some (default 15 (time_limit s))).

(** The world in which the time-up path calls [submit_quiz]: state
    initialized, index forced to the number of questions, notice shown. *)
Definition time_up_world (inp : Inputs) (questions : list Question)
    (w : World) : World :=
  set_ui (ui w ++ [UiSuccess "Time's up! Submitting your answers..."])
    (set_sstate
       (set_current_question (Z.of_nat (length questions))
          (initialized inp (sstate w))) w).

(** [remaining_time] of line 207, in microseconds. *)
Definition remaining (inp : Inputs) (s : SessionState) : Z :=
  minutes (default 15 (time_limit s))
  - (now inp - default (now_init inp) (start_time s)).

(** The time limit is reached: now - start_time >= time_limit. *)
Definition time_is_up (inp : Inputs) (s : SessionState) : Prop :=
  minutes (default 15 (time_limit s))
  ≤ now inp - default (now_init inp) (start_time s).

(** The index, when set, lies in [0, n]. *)
Definition index_in_bounds (n : nat) (s : SessionState) : Prop :=
  match current_question s with
  | Some i => 0 ≤ i ≤ Z.of_nat n
  | None => True
  end.

(** The log line that [submit_quiz] writes once it has a score. *)
Definition is_submitted (e : LogEntry) : bool :=
  match e with
  | LogSubmitted _ _ => true
  | _ => false
  end.

(** The index that the buttons of one render leave, from index [i]. *)
Definition navigate (n : Z) (inp : Inputs) (i : Z) : Z :=
  let i1 := if btn_previous inp && (i >? 0) then i - 1 else i in
  if btn_next inp && (i1 <? n - 1) then i1 + 1 else i1.


(** Sample renders.  At [late_render] the fifteen minutes are over and the
    visitor presses Previous; at [early_render] ten seconds have passed. *)
Definition late_render : Inputs :=
  mkInputs 0 (minutes 15) None true false false false false.

Definition early_render (previous next : bool) : Inputs :=
  mkInputs 0 10000000 None previous false next false false.

Definition state_at (i : Z) : SessionState :=
  mkSessionState (Some i) (Some sample_answers) (Some 0) (Some 15).

Definition world_at (i : Z) : World :=
  mkWorld sample_questions [] [] sample_keys (state_at i) [] [].

(** The same store when the query of this render fails. *)
Definition world_query_fails : World :=
  mkWorld sample_questions [] [true] sample_keys sample_state [] [].

(** *** Invariants of the store and of the pages *)

(** The columns declared [nullable=False] that a caller of [add_question]
    passes by key (lines 66-71). *)
Definition not_null_columns : list string :=
  ["question_text"; "option_a"; "option_b"; "option_c"; "option_d";
   "correct_option"].

(** The row that the dict of lines 336-344 becomes under key [i], with
    [k] for the correct option as the column holds it. *)
Definition form_row (i : Z) (k : string) (f : FormInputs) : Question :=
  mkQuestion i (f_question_text f) (f_option_a f) (f_option_b f)
    (f_option_c f) (f_option_d f) k (Some (f_explanation f)).

(** Table [t'] is [t] followed by rows that satisfy the check constraint,
    and keeps the keys distinct when they were. *)
Definition table_extends (t t' : list Question) : Prop :=
  ∃ rows, t' = t ++ rows
    ∧ Forall (λ q, correct_option q ∈ option_keys) rows
    ∧ (NoDup (id <$> t) → NoDup (id <$> t')).

(** What a run of the admin page may do to the database session and to
    the session state. *)
Definition store_step (w w' : World) : Prop :=
  table_extends (table w) (table w')
  ∧ (pending w = [] → pending w' = [])
  ∧ sstate w' = sstate w.

(** The writes that one render of the quiz page is made of. *)
Inductive quiz_update (w : World) : World → Prop :=
  | upd_ui e : quiz_update w (set_ui (ui w ++ [e]) w)
  | upd_log e : quiz_update w (set_log (log w ++ [e]) w)
  | upd_faults : quiz_update w (set_faults (tail (faults w)) w)
  | upd_pending : quiz_update w (set_pending [] w)
  | upd_index i :
      quiz_update w (set_sstate (set_current_question i (sstate w)) w)
  | upd_answers_init :
      answers (sstate w) = None →
      quiz_update w (set_sstate (set_answers ∅ (sstate w)) w)
  | upd_answer a k key :
      answers (sstate w) = Some a →
      quiz_update w
        (set_sstate (set_answers (<[k := key_str key]> a) (sstate w)) w)
  | upd_start_time t :
      start_time (sstate w) = None →
      quiz_update w (set_sstate (set_start_time t (sstate w)) w)
  | upd_time_limit :
      time_limit (sstate w) = None →
      quiz_update w (set_sstate (set_time_limit 15 (sstate w)) w).

(** [m] writes through these updates only, whether it returns or raises. *)
Definition quiz_effects {A} (m : M A) : Prop :=
  ∀ w, rtc quiz_update w (m w).2.

(** The recorded answers, when the key is set, are option letters. *)
Definition answers_valid (s : SessionState) : Prop :=
  ∀ a, answers s = Some a → map_Forall (λ _ v, v ∈ option_keys) a.

(** The question that a render of the quiz page would display, if it
    displays one, has a recorded answer. *)
Definition shown_question_answered (w : World) : Prop :=
  ∀ q, py_index (table w) (default 0 (current_question (sstate w))) = inr q →
       ∃ a, answers (sstate w) = Some a ∧ is_Some (a !! id q).

(** A run that only rendered: [events] were shown, nothing else moved. *)
Definition shown (events : list UiEvent) (w w' : World) : Prop :=
  w' = set_ui (ui w ++ events) w.

(** The notice of line 192. *)
Definition no_questions_warning : UiEvent :=
  UiWarning "No questions available. Please contact the administrator.".

(** More sample data: a record whose question text is JSON [null], a
    record with a key that is no column, and a file that is not UTF-8
    (no UTF-8 sequence holds the byte 255) with a decoder that refuses
    such files. *)
Definition null_text_fields : gmap string pyval :=
  list_to_map
    [("question_text", PNone); ("option_a", PStr "1");
     ("option_b", PStr "2"); ("option_c", PStr "3"); ("option_d", PStr "4");
     ("correct_option", PStr "B"); ("explanation", PStr "Count.")].

Definition extra_key_record : pyval :=
  PDict (list_to_map
    [("question_text", PStr "1 + 1 = ?"); ("option_a", PStr "1");
     ("option_b", PStr "2"); ("option_c", PStr "3"); ("option_d", PStr "4");
     ("correct_option", PStr "B"); ("explanation", PStr "Count.");
     ("difficulty", PStr "easy")]).

Definition invalid_utf8 : string := String (ascii_of_nat 255) EmptyString.

Fixpoint has_byte (b : nat) (bytes : string) : bool :=
  match bytes with
  | EmptyString => false
  | String c rest => Nat.eqb (nat_of_ascii c) b || has_byte b rest
  end.

Definition strict_utf8_decode (bytes : string) : exn + string :=
  if has_byte 255 bytes then inl UnicodeDecodeError else inr bytes.

(** * Properties *)

(** ** Scoring *)

Lemma option_text_key q l :
  l ∈ option_keys →
  ∃ t, option_text q l = inr t ∧ t ∈ [option_a q; option_b q; option_c q; option_d q].
Proof.
  unfold option_keys. intros H.
  repeat (apply elem_of_cons in H as [-> | H]); [..| by apply elem_of_nil in H];
   (eexists; split; [reflexivity | set_solver]).
Qed.

Lemma option_text_no_answer q : option_text q no_answer = inl AttributeError.
Proof. reflexivity. Qed.

Lemma option_text_inr q l t :
  option_text q l = inr t → l ≠ no_answer.
Proof. intros H ->. discriminate. Qed.

Lemma score_question_inr a q c row :
  score_question a q = inr (c, row) →
  c = bool_decide (a !! id q = Some (correct_option q))
  ∧ r_result row = (if c then "Correct" else "Incorrect")
  ∧ (a !! id q = None → r_your_answer row = no_answer).
Proof.
  unfold score_question.
  destruct (option_text q (correct_option q)) as [e|t] eqn:Hco.
  { destruct (if negb _ then _ else _); discriminate. }
  apply option_text_inr in Hco.
  destruct (a !! id q) as [v|] eqn:Ha; cbn [default from_option Datatypes.id].
  - destruct (if negb _ then _ else _) as [|your]; [discriminate|].
    intros [= <- <-]. cbn [r_result r_your_answer]. split_and!; [|done|done].
    destruct (String.eqb_spec v (correct_option q)) as [->|Hne].
    + by rewrite bool_decide_eq_true_2.
    + rewrite bool_decide_eq_false_2; [done|congruence].
  - replace (String.eqb no_answer no_answer) with true by reflexivity.
    cbn [negb].
    destruct (String.eqb_spec no_answer (correct_option q)) as [Heq|Hne]; [congruence|].
    intros [= <- <-]. cbn [r_result r_your_answer].
    split_and!; [|done|done]. by rewrite bool_decide_eq_false_2.
Qed.

Lemma score_question_total a q :
  correct_option q ∈ option_keys →
  (∀ v, a !! id q = Some v → v ∈ option_keys) →
  ∃ c row, score_question a q = inr (c, row).
Proof.
  intros Hq Ha. unfold score_question.
  destruct (option_text_key q _ Hq) as (t & -> & _).
  destruct (a !! id q) as [v|] eqn:Hv; cbn [default from_option Datatypes.id].
  - destruct (option_text_key q v (Ha v eq_refl)) as (t' & -> & _).
    destruct (negb _); eauto.
  - replace (String.eqb no_answer no_answer) with true by reflexivity.
    cbn [negb]. eauto.
Qed.

Lemma score_fold_inr a questions : ∀ score results score' results',
  score_fold a questions score results = inr (score', results') →
  score' = (score + count_correct a questions)%nat
  ∧ ∃ rows, results' = results ++ rows
      ∧ length rows = length questions
      ∧ ∀ i q, questions !! i = Some q → a !! id q = None →
          ∃ row, rows !! i = Some row
            ∧ r_your_answer row = no_answer ∧ r_result row = "Incorrect".
Proof.
  induction questions as [|q rest IH]; intros score results score' results'.
  - intros [= <- <-]. split; [unfold count_correct; simpl; lia|].
    exists []. rewrite app_nil_r. split_and!; [done..|]. intros i q Hq; done.
  - cbn [score_fold].
    destruct (score_question a q) as [e|[c row]] eqn:Hq; [discriminate|].
    apply score_question_inr in Hq as (Hc & Hres & Hnone).
    intros (-> & rows & -> & Hlen & Hrows)%IH. split.
    + unfold count_correct. rewrite filter_cons. subst c.
      case_bool_decide; case_decide; try done; simpl; lia.
    + exists (row :: rows). rewrite <- app_assoc. split_and!; [done|simpl; lia|].
      intros [|i] q' Hq' Hn; simpl in Hq'.
      * injection Hq' as <-. exists row. split_and!; [done|by apply Hnone|].
        rewrite Hres, Hc. by rewrite bool_decide_eq_false_2 by (rewrite Hn; done).
      * by apply (Hrows i q').
Qed.

Lemma score_fold_total a questions : ∀ score results,
  Forall (λ q, correct_option q ∈ option_keys) questions →
  map_Forall (λ _ v, v ∈ option_keys) a →
  ∃ score' results', score_fold a questions score results = inr (score', results').
Proof.
  induction questions as [|q rest IH]; intros score results Hqs Ha.
  - simpl. eauto.
  - apply Forall_cons in Hqs as [Hq Hrest]. cbn [score_fold].
    destruct (score_question_total a q Hq) as (c & row & ->); [eauto|].
    by apply IH.
Qed.

Lemma score_loop_world questions : ∀ score results w,
  (score_loop questions score results w).2 = w.
Proof.
  induction questions as [|q rest IH]; intros score results w; [done|].
  cbn [score_loop]. unfold bind, read_state, lift.
  destruct (answers (sstate w)) as [a|]; [|done].
  destruct (score_question a q) as [e|[correct row]]; [done|]. apply IH.
Qed.

Lemma score_loop_fold a questions : ∀ score results w,
  answers (sstate w) = Some a →
  score_loop questions score results w
  = (score_fold a questions score results, w).
Proof.
  induction questions as [|q rest IH]; intros score results w Ha; [done|].
  cbn [score_loop score_fold]. unfold bind, read_state, lift. rewrite Ha.
  destruct (score_question a q) as [e|[correct row]]; [done|]. by apply IH.
Qed.

Lemma submit_quiz_run questions a w :
  answers (sstate w) = Some a →
  submit_quiz questions w =
    match score_fold a questions 0%nat [] with
    | inl e => (inl e, w)
    | inr (score, results) => (inr tt, report_score score results questions w)
    end.
Proof.
  intros Ha. unfold submit_quiz, bind. rewrite (score_loop_fold a) by done.
  destruct (score_fold a questions 0 []) as [e|[score results]]; [done|].
  unfold st_show, logger, modify, report_score, set_ui, set_log. cbn.
  by rewrite <- !app_assoc.
Qed.

Lemma review_question_total idx q a w :
  answers (sstate w) = Some a →
  correct_option q ∈ option_keys →
  (∀ v, a !! id q = Some v → v ∈ option_keys) →
  ∃ w', review_question idx q w = (inr tt, w') ∧ sstate w' = sstate w.
Proof.
  intros Ha Hq Hv. unfold review_question, bind, read_state, st_show, modify, lift, ret.
  cbn [sstate set_ui]. rewrite Ha.
  destruct (option_text_key q _ Hq) as (t & -> & _).
  destruct (a !! id q) as [v|] eqn:Hl; cbn [default from_option Datatypes.id].
  - destruct (option_text_key q v (Hv v eq_refl)) as (t' & -> & _).
    destruct (negb _); cbn [sstate set_ui]; eauto.
  - replace (String.eqb no_answer no_answer) with true by reflexivity.
    cbn [negb sstate set_ui]. eauto.
Qed.

Lemma review_loop_total questions a : ∀ idx w,
  answers (sstate w) = Some a →
  Forall (λ q, correct_option q ∈ option_keys) questions →
  map_Forall (λ _ v, v ∈ option_keys) a →
  ∃ w', review_loop idx questions w = (inr tt, w') ∧ sstate w' = sstate w.
Proof.
  induction questions as [|q rest IH]; intros idx w Ha Hqs Hvs.
  - by exists w.
  - apply Forall_cons in Hqs as [Hq Hrest]. cbn [review_loop]. unfold bind.
    destruct (review_question_total idx q a w Ha Hq) as (w1 & -> & Hs1).
    { intros v Hv. by apply (Hvs (id q)). }
    destruct (IH (S idx) w1) as (w2 & -> & Hs2); [by rewrite Hs1|done..|].
    exists w2. split; [done|]. by rewrite Hs2.
Qed.

(** C1.  Scoring correctness.  With [a] the answers of the session: every
    time [submit_quiz] returns, the score it shows and logs is the number
    of questions whose id has an entry in [a] equal to the question's
    [correct_option]; a question without an entry is shown with the
    sentinel "No Answer" and the result "Incorrect"; and [submit_quiz]
    does return when the stored questions satisfy the check constraint and
    the recorded answers are option letters. *)
Theorem submit_quiz_score (questions : list Question) (a : gmap Z string)
    (w : World) :
  answers (sstate w) = Some a →
  (∀ w', submit_quiz questions w = (inr tt, w') →
     ∃ results,
       w' = report_score (count_correct a questions) results questions w
       ∧ length results = length questions
       ∧ ∀ i q, questions !! i = Some q → a !! id q = None →
           ∃ row, results !! i = Some row
             ∧ r_your_answer row = no_answer
             ∧ r_result row = "Incorrect")
  ∧ (Forall (λ q, correct_option q ∈ option_keys) questions →
     map_Forall (λ _ v, v ∈ option_keys) a →
     ∃ w', submit_quiz questions w = (inr tt, w')).
Proof.
  intros Ha. rewrite (submit_quiz_run questions a w Ha). split.
  - intros w'.
    destruct (score_fold a questions 0 []) as [e|[score results]] eqn:Hloop;
      [discriminate|].
    intros [= <-].
    apply score_fold_inr in Hloop as (-> & rows & -> & Hlen & Hrows).
    exists rows. by rewrite app_nil_l.
  - intros Hqs Hvs.
    destruct (score_fold_total a questions 0%nat [] Hqs Hvs)
      as (score & results & ->).
    eauto.
Qed.

Lemma submit_quiz_score_witness :
  ∃ w' results,
    submit_quiz sample_questions sample_world = (inr tt, w')
    ∧ w' = report_score 1 results sample_questions sample_world.
Proof.
  destruct (submit_quiz_score sample_questions sample_answers sample_world
              eq_refl) as [Hscore Htotal].
  destruct Htotal as [w' Hw'].
  - apply (bool_decide_unpack _). vm_compute. exact I.
  - apply (bool_decide_unpack _). vm_compute. exact I.
  - destruct (Hscore w' Hw') as (results & Hres & _).
    exists w', results. split; [exact Hw' | exact Hres].
Defined.

(** C9.  The attribute lookup behind the option texts.  For a letter of
    {A, B, C, D} the lookup yields one of the four option fields of the
    question, whereas the sentinel "No Answer" names no attribute; when
    every question satisfies the check constraint and every recorded
    answer is a letter, [submit_quiz] and [review_answers] both return,
    whichever questions are left unanswered. *)
Theorem option_lookup_total (questions : list Question)
    (a : gmap Z string) (w : World) :
  answers (sstate w) = Some a →
  Forall (λ q, correct_option q ∈ option_keys) questions →
  map_Forall (λ _ v, v ∈ option_keys) a →
  (∀ q letter, letter ∈ option_keys →
     ∃ t, option_text q letter = inr t
          ∧ t ∈ [option_a q; option_b q; option_c q; option_d q])
  ∧ (∀ q, option_text q no_answer = inl AttributeError)
  ∧ (∃ w', submit_quiz questions w = (inr tt, w'))
  ∧ (∃ w', review_answers questions w = (inr tt, w')).
Proof.
  intros Ha Hqs Hvs. split_and!.
  - intros q letter. apply option_text_key.
  - apply option_text_no_answer.
  - rewrite (submit_quiz_run questions a w Ha).
    destruct (score_fold_total a questions 0%nat [] Hqs Hvs)
      as (score & results & ->).
    eauto.
  - unfold review_answers, bind, st_show, modify.
    destruct (review_loop_total questions a 1%nat
                (set_ui (ui w ++ [UiHeader "Review Your Answers"]) w))
      as (w' & Hw' & _); [done..|].
    exists w'. exact Hw'.
Qed.

Lemma option_lookup_total_witness :
  (∃ w', submit_quiz sample_questions sample_world = (inr tt, w'))
  ∧ (∃ w', review_answers sample_questions sample_world = (inr tt, w')).
Proof.
  assert (Hqs : Forall (λ q, correct_option q ∈ option_keys) sample_questions)
    by (apply (bool_decide_unpack _); vm_compute; exact I).
  assert (Hvs : map_Forall (λ (_ : Z) v, v ∈ option_keys) sample_answers)
    by (apply (bool_decide_unpack _); vm_compute; exact I).
  destruct (option_lookup_total sample_questions sample_answers sample_world
              eq_refl Hqs Hvs) as (_ & _ & Hsubmit & Hreview).
  split; [exact Hsubmit | exact Hreview].
Defined.

(** ** The store and the admin page *)

Ltac run_monad :=
  unfold bind, ret, raise, lift, try_except, get_world, st_show, logger,
    modify_state, modify, any_exception in *.

Lemma count_log_app p l1 l2 :
  count_log p (l1 ++ l2) = (count_log p l1 + count_log p l2)%nat.
Proof. unfold count_log. by rewrite List.filter_app, length_app. Qed.

Lemma count_log_le p q l :
  (∀ e, p e = true → q e = true) → (count_log p l ≤ count_log q l)%nat.
Proof.
  intros Hpq. unfold count_log. induction l as [|e l IH]; [done|].
  cbn [List.filter]. destruct (p e) eqn:Hp.
  - rewrite (Hpq e Hp). simpl. lia.
  - destruct (q e); simpl; lia.
Qed.

Lemma invalid_records_cons q rest :
  invalid_records (q :: rest)
  = ((if validateRecord q then 0 else 1) + invalid_records rest)%nat.
Proof. unfold invalid_records. cbn [List.filter]. by destruct (validateRecord q). Qed.

(** On a dict, field validation is the presence of the seven keys. *)
Lemma validateRecord_dict (d : gmap string pyval) :
  validateRecord (PDict d) = true
  ↔ ∀ f, f ∈ required_fields → is_Some (d !! f).
Proof.
  unfold validateRecord. rewrite forallb_forall. split.
  - intros H f Hf. apply list_elem_of_In, H, bool_decide_eq_true in Hf.
    cbn in Hf. injection Hf as Hf. by apply bool_decide_eq_true in Hf.
  - intros H f Hf. apply bool_decide_eq_true. cbn. f_equal.
    apply bool_decide_eq_true, H. by apply list_elem_of_In.
Qed.

Lemma all_in_container fields q :
  is_container q = true →
  all_in fields q = inr (forallb (λ f, bool_decide (py_in f q = inr true)) fields).
Proof.
  intros Hq. induction fields as [|f rest IH]; [done|].
  cbn [all_in forallb].
  destruct (py_in f q) as [e|[]] eqn:Hin.
  - destruct q; done.
  - rewrite IH. by rewrite bool_decide_eq_true_2.
  - by rewrite bool_decide_eq_false_2.
Qed.

(** Unfolding steps for the functions of the admin page, named here so
    that the sections below can abbreviate the functions themselves. *)
Ltac unfold_add_question :=
  unfold add_question, session_add, session_commit, question_id,
    session_rollback, backend_fails.
Ltac unfold_insert_row := unfold insert_row, primary_key.
Ltac unfold_new_Question := unfold new_Question.
Ltac unfold_new_Question_in H := unfold new_Question in H.
Ltac step_flush := cbn [flush app].
Ltac step_bulk_loop := cbn [bulk_loop].
Ltac unfold_admin_page :=
  unfold single_entry, parse_json_questions, bulk_entry.
Ltac unfold_admin_root := unfold admin_add_questions.

Section StoreProperties.
Variable class_attribute : string -> bool.
Variable adapt_text : pyval -> option string.
Variable adapt_int : pyval -> option Z.

Local Abbreviation new_Question := (new_Question class_attribute).
Local Abbreviation insert_row := (insert_row adapt_text adapt_int).
Local Abbreviation flush := (flush adapt_text adapt_int).
Local Abbreviation add_question :=
  (add_question class_attribute adapt_text adapt_int).
Local Abbreviation bulk_loop :=
  (bulk_loop class_attribute adapt_text adapt_int).
Local Abbreviation single_entry :=
  (single_entry class_attribute adapt_text adapt_int).

(** The strings that the [VARCHAR(1)] column turns into a letter. *)
Lemma varchar1_padded s :
  padded_letter s = true
  ↔ ∃ k, varchar1 s = Some k ∧ k ∈ option_keys.
Proof.
  destruct s as [|c rest]; cbn [padded_letter varchar1].
  - split; [done|]. intros (k & [= <-] & Hk). unfold option_keys in Hk.
    rewrite !elem_of_cons, elem_of_nil in Hk.
    by destruct Hk as [?|[?|[?|[?|[]]]]].
  - rewrite andb_true_iff. unfold is_option_key. rewrite bool_decide_eq_true.
    destruct (all_spaces rest); split.
    + intros [Hk _]. by eexists.
    + intros (k & [= <-] & Hk). done.
    + intros [_ [=]].
    + intros (k & [=] & _).
Qed.

Lemma insert_row_checked t ks o row ks' :
  insert_row t ks o = (Some row, ks') →
  ∃ s, o_correct_option o = PStr s
       ∧ varchar1 s = Some (correct_option row)
       ∧ correct_option row ∈ option_keys.
Proof.
  unfold insert_row.
  destruct (primary_key adapt_int t ks (o_id o)) as [key ks1].
  intros [= H _]. simplify_option_eq.
  match goal with
  | Hc : checked_option _ = Some _ |- _ => rename Hc into Hchecked
  end.
  unfold checked_option in Hchecked.
  destruct (o_correct_option o) as [| | | |s| |]; try done.
  exists s. split; [done|]. cbn.
  destruct (varchar1 s) as [k|]; [|done]. cbn in Hchecked.
  unfold is_option_key in Hchecked. case_bool_decide; [|done].
  by injection Hchecked as <-.
Qed.

Lemma flush_rows objs : ∀ t ks t' ks',
  flush t ks objs = (Some t', ks') →
  ∃ rows, t' = t ++ rows ∧ length rows = length objs.
Proof.
  induction objs as [|o rest IH]; intros t ks t' ks'; step_flush.
  - intros [= <- _]. exists []. by rewrite app_nil_r.
  - destruct (insert_row t ks o) as [[row|] ks1]; [|done].
    intros (rows & -> & Hlen)%IH. exists (row :: rows).
    rewrite <- app_assoc. split; [done|]. simpl. lia.
Qed.

Lemma flush_last_checked objs o : ∀ t ks t' ks',
  flush t ks (objs ++ [o]) = (Some t', ks') →
  ∃ s, o_correct_option o = PStr s ∧ padded_letter s = true.
Proof.
  induction objs as [|o' rest IH]; intros t ks t' ks'; step_flush.
  - destruct (insert_row t ks o) as [[row|] ks1] eqn:Hrow; [|done].
    intros _. apply insert_row_checked in Hrow as (s & Hs & Hv & Hk).
    exists s. split; [done|]. apply varchar1_padded. by eexists.
  - destruct (insert_row t ks o') as [[row|] ks1]; [|done]. apply IH.
Qed.

Lemma new_Question_correct_option question_data o :
  new_Question question_data = inr o →
  ∃ d, question_data = PDict d
       ∧ o_correct_option o = default PNone (d !! "correct_option").
Proof.
  unfold_new_Question. destruct question_data; try done.
  case_match; [|done]. intros [= <-]. eauto.
Qed.

(** The store invariant behind the preconditions of scoring: every row
    that [add_question] writes satisfies the check constraint. *)
Lemma insert_row_constraint t ks o row ks' :
  insert_row t ks o = (Some row, ks') → correct_option row ∈ option_keys.
Proof.
  intros H. by apply insert_row_checked in H as (s & _ & _ & Hk).
Qed.

Lemma flush_constraint objs : ∀ t ks t' ks',
  Forall (λ q, correct_option q ∈ option_keys) t →
  flush t ks objs = (Some t', ks') →
  Forall (λ q, correct_option q ∈ option_keys) t'.
Proof.
  induction objs as [|o rest IH]; intros t ks t' ks' Ht; step_flush.
  - by intros [= <- _].
  - destruct (insert_row t ks o) as [[row|] ks1] eqn:Hrow; [|done].
    apply IH. apply Forall_app. split; [done|].
    apply Forall_singleton. by eapply insert_row_constraint.
Qed.

(** [add_question], step by step: the constructor, the commit (one
    statement), the read of the new key (another). *)
Lemma add_question_run question_data w :
  add_question question_data w =
    match new_Question question_data with
    | inl e =>
        (inr false, set_log (log w ++ [LogAddError e]) (set_pending [] w))
    | inr o =>
        match faults w with
        | true :: rest =>
            (inr false,
             set_log (log w ++ [LogAddError DBAPIError])
               (set_pending [] (set_faults rest w)))
        | _ =>
            match flush (table w) (keys w) (pending w ++ [o]) with
            | (None, ks) =>
                (inr false,
                 set_log (log w ++ [LogAddError DBAPIError])
                   (set_pending []
                      (set_keys ks (set_faults (tail (faults w)) w))))
            | (Some t, ks) =>
                match tail (faults w) with
                | true :: rest =>
                    (inr false,
                     set_log (log w ++ [LogAddError DBAPIError])
                       (set_pending []
                          (set_keys ks (set_table t (set_faults rest w)))))
                | _ =>
                    (inr true,
                     set_log (log w
                              ++ [LogAdded (default 0 (id <$> last t))])
                       (set_pending []
                          (set_keys ks
                             (set_table t
                                (set_faults (tail (tail (faults w))) w)))))
                end
            end
        end
    end.
Proof.
  unfold_add_question. run_monad.
  destruct (new_Question question_data) as [e|o]; [done|].
  destruct w as [t p fs ks s u l]. cbn.
  destruct fs as [|[] fs]; cbn; try done;
    destruct (flush t ks (p ++ [o])) as [[t1|] ks1]; cbn; try done;
    destruct fs as [|[] fs]; done.
Qed.

Lemma add_question_constraint question_data w r w' :
  Forall (λ q, correct_option q ∈ option_keys) (table w) →
  add_question question_data w = (r, w') →
  Forall (λ q, correct_option q ∈ option_keys) (table w').
Proof.
  intros Ht. rewrite add_question_run.
  destruct (new_Question question_data) as [e|o]; [by intros [= <- <-]|].
  destruct (flush (table w) (keys w) (pending w ++ [o])) as [[t1|] ks1]
    eqn:Hflush.
  - apply flush_constraint in Hflush; [|done].
    destruct (faults w) as [|[] [|[] ?]]; by intros [= <- <-].
  - destruct (faults w) as [|[] [|[] ?]]; by intros [= <- <-].
Qed.

(** What every call of [add_question] does: it returns a boolean,
    leaves nothing pending, writes one line to the log ([LogAdded] when
    it returns [True], [LogAddError] otherwise) and only appends to the
    table.  It returns [True] only for a record whose correct option the
    table stores, and then it has appended a row; a record whose correct
    option the table does not store leaves the table as it is.  On a
    backend that never fails it returns [False] only with the table as
    it was. *)
Lemma add_question_spec question_data w :
  ∃ b w' entry rows,
    add_question question_data w = (inr b, w')
    ∧ pending w' = [] ∧ sstate w' = sstate w ∧ ui w' = ui w
    ∧ log w' = log w ++ [entry]
    ∧ is_attempt entry = true ∧ is_success entry = b
    ∧ table w' = table w ++ rows
    ∧ (b = true →
       stored_correct_option question_data = true
       ∧ length rows = S (length (pending w)))
    ∧ (stored_correct_option question_data = false → rows = [])
    ∧ (faults w = [] → faults w' = [] ∧ (b = false → rows = [])).
Proof.
  rewrite add_question_run.
  destruct (new_Question question_data) as [e|o] eqn:Hnew.
  { eexists false, _, _, []. rewrite app_nil_r. split_and!; done. }
  assert (Hstored : ∀ t ks,
    flush (table w) (keys w) (pending w ++ [o]) = (Some t, ks) →
    stored_correct_option question_data = true).
  { intros t ks (s & Hs & Hpad)%flush_last_checked.
    apply new_Question_correct_option in Hnew as (d & -> & Hd).
    cbn. rewrite Hs in Hd. destruct (d !! "correct_option") as [[]|]; try done.
    cbn in Hd. by injection Hd as <-. }
  destruct (flush (table w) (keys w) (pending w ++ [o])) as [[t1|] ks1]
    eqn:Hflush.
  - pose proof (Hstored _ _ eq_refl) as Hok.
    apply flush_rows in Hflush as (rows & -> & Hlen).
    rewrite length_app in Hlen. cbn in Hlen.
    assert (length rows = S (length (pending w))) as Hlen' by lia.
    destruct (faults w) as [|[] [|[] ?]] eqn:Hf.
    + eexists true, _, _, rows. cbn. split_and!; try done; congruence.
    + eexists false, _, _, []. cbn. rewrite app_nil_r. split_and!; done.
    + eexists false, _, _, []. cbn. rewrite app_nil_r. split_and!; done.
    + eexists false, _, _, []. cbn. rewrite app_nil_r. split_and!; done.
    + eexists true, _, _, rows. cbn. split_and!; try done; congruence.
    + eexists false, _, _, rows. cbn. split_and!; try done; congruence.
    + eexists true, _, _, rows. cbn. split_and!; try done; congruence.
  - destruct (faults w) as [|[] ?] eqn:Hf;
      eexists false, _, _, []; cbn; rewrite app_nil_r;
      split_and!; done.
Qed.

Lemma bulk_loop_spec questions : ∀ success_count w,
  Forall (λ q, is_container q = true) questions →
  ∃ entries w',
    bulk_loop questions success_count w
      = (inr (success_count + count_log is_success entries)%nat, w')
    ∧ log w' = log w ++ entries
    ∧ sstate w' = sstate w ∧ ui w' = ui w
    ∧ (count_log is_attempt entries + invalid_records questions)%nat
        = length questions
    ∧ count_log is_skip entries = invalid_records questions
    ∧ (pending w = [] →
       pending w' = []
       ∧ (length (table w) + count_log is_success entries
          ≤ length (table w'))%nat
       ∧ (faults w = [] →
          length (table w')
          = (length (table w) + count_log is_success entries)%nat)).
Proof.
  induction questions as [|q rest IH]; intros success_count w Hqs.
  - exists [], w. cbn. rewrite app_nil_r. split_and!; try done.
    + unfold ret. by rewrite Nat.add_0_r.
    + intros Hp. split_and!; [done|lia|intros _; lia].
  - apply Forall_cons in Hqs as [Hq Hrest]. step_bulk_loop.
    unfold bind at 1, lift. rewrite (all_in_container _ _ Hq).
    fold (validateRecord q). rewrite invalid_records_cons.
    destruct (validateRecord q) eqn:Hvalid.
    + unfold bind at 1.
      destruct (add_question_spec q w)
        as (b & w1 & entry & rows & -> & Hp1 & Hs1 & Hu1 & Hl1 & Hatt1
            & Hsucc1 & Ht1 & Hb & _ & Hhealthy).
      destruct (IH (if b then S success_count else success_count) w1 Hrest)
        as (entries & w' & -> & Hlog & Hs & Hu & Hatt & Hskip & Htab).
      destruct (Htab Hp1) as (Hp' & Hle' & Heq').
      exists (entry :: entries), w'.
      change (entry :: entries) with ([entry] ++ entries).
      rewrite !count_log_app.
      assert (Hone : count_log is_attempt [entry] = 1%nat)
        by (unfold count_log; cbn; by rewrite Hatt1).
      assert (Hsone : count_log is_success [entry]
                      = if b then 1%nat else 0%nat)
        by (unfold count_log; cbn; rewrite Hsucc1; by destruct b).
      assert (Hskone : count_log is_skip [entry] = 0%nat)
        by (unfold count_log; cbn; destruct entry; done).
      rewrite Hone, Hsone, Hskone.
      cbn -[validateRecord invalid_records count_log].
      assert (Hrows : b = true → length rows = 1%nat ∨ pending w ≠ []).
      { intros Hbt. destruct (Hb Hbt) as [_ Hlen].
        destruct (pending w); [by left|by right]. }
      split_and!.
      * destruct b; first [done | f_equal; f_equal; lia].
      * by rewrite Hlog, Hl1, <- app_assoc.
      * congruence.
      * congruence.
      * lia.
      * done.
      * intros Hp. split; [done|]. rewrite Hp in Hb. cbn in Hb.
        rewrite Ht1, length_app in Hle', Heq'. split.
        -- destruct b; [destruct (Hb eq_refl) as [_ Hlen]|]; lia.
        -- intros Hf. destruct (Hhealthy Hf) as [Hf1 Hfalse].
           rewrite (Heq' Hf1).
           destruct b; [destruct (Hb eq_refl) as [_ Hlen]; lia|].
           rewrite (Hfalse eq_refl). simpl. lia.
    + unfold bind at 1, logger, modify.
      destruct (IH success_count (set_log (log w ++ [LogMissingFields q]) w) Hrest)
        as (entries & w' & -> & Hlog & Hs & Hu & Hatt & Hskip & Htab).
      exists (LogMissingFields q :: entries), w'.
      change (LogMissingFields q :: entries) with ([LogMissingFields q] ++ entries).
      rewrite !count_log_app. cbn -[validateRecord invalid_records]. cbn in Hlog, Hs, Hu, Htab.
      split_and!.
      * done.
      * by rewrite Hlog, <- app_assoc.
      * done.
      * done.
      * lia.
      * lia.
      * done.
Qed.

Lemma flush_last_inserted objs o : ∀ t ks t' ks',
  flush t ks (objs ++ [o]) = (Some t', ks') →
  ∃ t0 ks0 row, insert_row t0 ks0 o = (Some row, ks') ∧ t' = t0 ++ [row]
                ∧ length t0 = (length t + length objs)%nat.
Proof.
  induction objs as [|o' rest IH]; intros t ks t' ks'; step_flush.
  - destruct (insert_row t ks o) as [[row|] ks1] eqn:Hrow; [|done].
    intros [= <- <-]. exists t, ks, row. split_and!; [done..|simpl; lia].
  - destruct (insert_row t ks o') as [[row'|] ks1]; [|done].
    intros (t0 & ks0 & row & Hrow & -> & Hlen)%IH. exists t0, ks0, row.
    split_and!; [done..|]. rewrite Hlen, length_app. simpl. lia.
Qed.

(** When [add_question] returns [True], the last row of the table is
    the one built from the record. *)
Lemma add_question_true question_data w w' :
  add_question question_data w = (inr true, w') →
  ∃ o t0 ks0 row ks,
    new_Question question_data = inr o
    ∧ insert_row t0 ks0 o = (Some row, ks)
    ∧ table w' = t0 ++ [row]
    ∧ length t0 = (length (table w) + length (pending w))%nat.
Proof.
  rewrite add_question_run.
  destruct (new_Question question_data) as [e|o]; [done|].
  destruct (flush (table w) (keys w) (pending w ++ [o])) as [[t1|] ks1]
    eqn:Hflush.
  - apply flush_last_inserted in Hflush as (t0 & ks0 & row & Hrow & -> & Hlen).
    destruct (faults w) as [|[] [|[] ?]]; intros [= <-];
      exists o, t0, ks0, row, ks1; done.
  - by destruct (faults w) as [|[] ?].
Qed.

(** C2, as the code has it.  For a record whose [correct_option] is not
    a [str] made of one of A, B, C, D followed by spaces only (a record
    that has none, or one of another type, among them), [add_question]
    returns [False] to its caller, raising nothing, and the committed
    table is what it was: same rows, same row count, and nothing left
    pending in the session.  A letter followed by spaces is not refused:
    whenever [add_question] returns [True], the record's
    [correct_option] is such a string and the row written holds the
    letter alone. *)
Theorem add_question_rejects_bad_option (question_data : pyval) (w : World) :
  (stored_correct_option question_data = false →
   ∃ w', add_question question_data w = (inr false, w')
         ∧ table w' = table w
         ∧ length (table w') = length (table w)
         ∧ pending w' = [])
  ∧ (∀ w', add_question question_data w = (inr true, w') →
       ∃ d s k row,
         question_data = PDict d
         ∧ d !! "correct_option" = Some (PStr s)
         ∧ varchar1 s = Some k ∧ k ∈ option_keys
         ∧ last (table w') = Some row ∧ correct_option row = k).
Proof.
  split.
  - intros Hbad.
    destruct (add_question_spec question_data w)
      as (b & w' & entry & rows & Hrun & Hp & _ & _ & _ & _ & _ & Ht & Hb
          & Hrows & _).
    rewrite (Hrows Hbad), app_nil_r in Ht.
    destruct b.
    + destruct (Hb eq_refl) as [Hvalid _]. congruence.
    + exists w'. by rewrite Ht.
  - intros w' Hrun.
    apply add_question_true in Hrun
      as (o & t0 & ks0 & row & ks & Hnew & Hrow & Ht & _).
    apply insert_row_checked in Hrow as (s & Hs & Hv & Hk).
    apply new_Question_correct_option in Hnew as (d & -> & Hd).
    rewrite Hs in Hd.
    exists d, s, (correct_option row), row. split_and!; try done.
    + destruct (d !! "correct_option") as [v|]; [|done]. cbn in Hd. congruence.
    + by rewrite Ht, last_snoc.
Qed.

(** C8.  The single-entry form, once submitted.  If one of the six
    required fields is empty the page shows "Please fill in all fields."
    and nothing else happens: no call of [add_question], table and log
    untouched.  Otherwise [add_question] is called exactly once, on the
    dict built from the form, and the page shows the success or the
    failure message according to what the call returned. *)
Theorem single_entry_validation (f : FormInputs) (w : World) :
  submitted f = true →
  ("" ∈ form_required f →
   single_entry f w
   = (inr tt, set_ui (ui w ++ [UiSubheader "Add a New Question";
                               UiError "Please fill in all fields."]) w))
  ∧ ("" ∉ form_required f →
     ∃ success w1,
       add_question (form_question_data f)
         (set_ui (ui w ++ [UiSubheader "Add a New Question"]) w)
       = (inr success, w1)
       ∧ single_entry f w
         = (inr tt,
            set_ui (ui w1 ++ [if success : bool
                              then UiSuccess "Question added successfully!"
                              else UiError
                                "Failed to add question. Check logs for details."])
              w1)
       ∧ count_log is_attempt (log w1) = S (count_log is_attempt (log w))).
Proof.
  intros Hsub. unfold_admin_page. rewrite Hsub.
  fold (form_required f).
  assert (Htruthy : forallb str_truthy (form_required f) = true
                    ↔ "" ∉ form_required f).
  { induction (form_required f) as [|s l IH]; cbn [forallb].
    - split; [intros _; apply not_elem_of_nil|done].
    - rewrite andb_true_iff, IH, not_elem_of_cons.
      destruct s; cbn [str_truthy]; intuition congruence. }
  split.
  - intros Hempty.
    assert (forallb str_truthy (form_required f) = false) as ->.
    { apply not_true_is_false. intros Hall. by apply Htruthy in Hall. }
    unfold bind, st_show, modify. cbn. by rewrite <- app_assoc.
  - intros Hfull. apply Htruthy in Hfull. rewrite Hfull. cbv zeta.
    destruct (add_question_spec (form_question_data f)
                (set_ui (ui w ++ [UiSubheader "Add a New Question"]) w))
      as (b & w1 & entry & rows & Hrun & _ & _ & _ & Hl & Hatt & _).
    exists b, w1. split; [exact Hrun|]. split.
    + unfold bind, st_show at 1, modify at 1. rewrite Hrun. by destruct b.
    + rewrite Hl, count_log_app. cbn [log set_ui].
      assert (count_log is_attempt [entry] = 1%nat) as ->
        by (unfold count_log; cbn; by rewrite Hatt).
      lia.
Qed.

End StoreProperties.

Section UploadProperties.
Variable class_attribute : string -> bool.
Variable adapt_text : pyval -> option string.
Variable adapt_int : pyval -> option Z.
Variable utf8_decode : string -> exn + string.
Variable json_loads : string -> exn + pyval.

Local Abbreviation parse_json_questions := (parse_json_questions json_loads).
Local Abbreviation bulk_loop :=
  (bulk_loop class_attribute adapt_text adapt_int).
Local Abbreviation bulk_entry :=
  (bulk_entry class_attribute adapt_text adapt_int utf8_decode json_loads).
Local Abbreviation admin_add_questions :=
  (admin_add_questions class_attribute adapt_text adapt_int utf8_decode
     json_loads).

Lemma parse_list json_data l w :
  json_loads json_data = inr (PList l) →
  parse_json_questions json_data w
  = (inr l, set_log (log w ++ [LogParsed (length l)]) w).
Proof.
  intros H. unfold_admin_page. run_monad. by rewrite H.
Qed.

Lemma parse_not_list json_data v w :
  json_loads json_data = inr v → is_list v = false →
  parse_json_questions json_data w
  = (inr [], set_log (log w ++ [LogNotAList]) w).
Proof.
  intros H Hv. unfold_admin_page. run_monad. rewrite H.
  by destruct v.
Qed.

Lemma parse_decode_error json_data w :
  json_loads json_data = inl JSONDecodeError →
  parse_json_questions json_data w
  = (inr [], set_ui (ui w ++ [UiError "Invalid JSON format."])
               (set_log (log w ++ [LogJSONDecodeError]) w)).
Proof.
  intros H. unfold_admin_page. run_monad. by rewrite H.
Qed.

Lemma bulk_entry_list f bytes json_data questions w :
  uploaded_file f = Some bytes →
  utf8_decode bytes = inr json_data →
  json_loads json_data = inr (PList questions) →
  Forall (λ q, is_container q = true) questions →
  ∃ entries w',
    bulk_entry f w = (inr tt, w')
    ∧ log w' = log w ++ LogParsed (length questions) :: entries
    ∧ sstate w' = sstate w
    ∧ ui w' = ui w ++ (if questions is [] then []
                       else [added_message (count_log is_success entries)])
    ∧ (count_log is_attempt entries + invalid_records questions)%nat
        = length questions
    ∧ count_log is_skip entries = invalid_records questions
    ∧ (pending w = [] →
       (length (table w) + count_log is_success entries
        ≤ length (table w'))%nat
       ∧ (faults w = [] →
          length (table w')
          = (length (table w) + count_log is_success entries)%nat)).
Proof.
  intros Hf Hdec Hjson Hqs. unfold_admin_page. rewrite Hf.
  unfold try_except, bind at 1, lift. rewrite Hdec.
  unfold bind at 1. rewrite (parse_list _ _ _ Hjson).
  destruct questions as [|q rest].
  - exists [], (set_log (log w ++ [LogParsed 0]) w). cbn.
    rewrite app_nil_r. split_and!; try done.
    intros _. split; [lia|]. intros _. lia.
  - unfold bind.
    destruct (bulk_loop_spec class_attribute adapt_text adapt_int (q :: rest)
                0%nat
                (set_log (log w ++ [LogParsed (length (q :: rest))]) w) Hqs)
      as (entries & w1 & -> & Hlog & Hs & Hu & Hatt & Hskip & Htab).
    exists entries, (set_ui (ui w1 ++ [added_message (count_log is_success entries)]) w1).
    unfold st_show, modify. cbn [log sstate ui table pending faults set_ui set_log] in *.
    split_and!; try done.
    + by rewrite Hlog, <- app_assoc.
    + by rewrite Hu.
    + intros Hp. by destruct (Htab Hp).
Qed.

(** A record on which [in] is not defined makes the field test raise. *)
Lemma all_in_not_container q :
  is_container q = false → all_in required_fields q = inl TypeError.
Proof. by destruct q. Qed.

(** The loop up to a record that is no container: the records before it
    are attempted or skipped as usual, the loop raises [TypeError] at
    that record, and the records after it are not looked at. *)
Lemma bulk_loop_abort pre bad rest : ∀ success_count w,
  Forall (λ q, is_container q = true) pre →
  is_container bad = false →
  ∃ entries w',
    bulk_loop (pre ++ bad :: rest) success_count w = (inl TypeError, w')
    ∧ log w' = log w ++ entries
    ∧ sstate w' = sstate w ∧ ui w' = ui w
    ∧ (count_log is_attempt entries + invalid_records pre)%nat = length pre
    ∧ count_log is_skip entries = invalid_records pre.
Proof.
  induction pre as [|q pre IH]; intros success_count w Hpre Hbad.
  - exists [], w. cbn [app]. step_bulk_loop. unfold bind, lift.
    rewrite (all_in_not_container _ Hbad). rewrite app_nil_r.
    split_and!; done.
  - apply Forall_cons in Hpre as [Hq Hpre]. cbn [app]. step_bulk_loop.
    unfold bind at 1, lift. rewrite (all_in_container _ _ Hq).
    fold (validateRecord q). rewrite invalid_records_cons.
    destruct (validateRecord q) eqn:Hvalid.
    + unfold bind at 1.
      destruct (add_question_spec class_attribute adapt_text adapt_int q w)
        as (b & w1 & entry & rows & -> & _ & Hs1 & Hu1 & Hl1 & Hatt1 & _).
      destruct (IH (if b then S success_count else success_count) w1
                  Hpre Hbad)
        as (entries & w' & -> & Hlog & Hs & Hu & Hatt & Hskip).
      exists (entry :: entries), w'.
      change (entry :: entries) with ([entry] ++ entries).
      rewrite !count_log_app.
      assert (Hone : count_log is_attempt [entry] = 1%nat)
        by (unfold count_log; cbn; by rewrite Hatt1).
      assert (Hskone : count_log is_skip [entry] = 0%nat)
        by (unfold count_log; cbn; destruct entry; done).
      rewrite Hone, Hskone.
      cbn -[validateRecord invalid_records count_log].
      split_and!; [done| |congruence|congruence|lia|done].
      by rewrite Hlog, Hl1, <- app_assoc.
    + unfold bind at 1, logger, modify.
      destruct (IH success_count
                  (set_log (log w ++ [LogMissingFields q]) w) Hpre Hbad)
        as (entries & w' & -> & Hlog & Hs & Hu & Hatt & Hskip).
      exists (LogMissingFields q :: entries), w'.
      change (LogMissingFields q :: entries)
        with ([LogMissingFields q] ++ entries).
      rewrite !count_log_app. cbn -[validateRecord invalid_records].
      cbn in Hlog, Hs, Hu.
      split_and!; [done| |done|done|lia|lia].
      by rewrite Hlog, <- app_assoc.
Qed.

(** C5, as the code has it.  For an uploaded list of M records that are
    all dicts, lists or strings, K of which fail field validation, the
    bulk path returns normally, calls [add_question] exactly M - K times
    whatever the outcome of each call, skips and logs the K invalid
    records, and counts at most M - K successes, which it reports when the
    list is not empty.  When a record of the list is [None], a boolean
    or a number, the field test raises [TypeError] at the first such
    record: the records before it have been attempted or skipped as
    above, no later record is looked at, no count is reported and the
    page shows "Failed to process the uploaded file.". *)
Theorem bulk_import_partial_success (f : FormInputs) (bytes json_data : string)
    (questions : list pyval) (w : World) :
  uploaded_file f = Some bytes →
  utf8_decode bytes = inr json_data →
  json_loads json_data = inr (PList questions) →
  (Forall (λ q, is_container q = true) questions →
   ∃ entries w',
     bulk_entry f w = (inr tt, w')
     ∧ log w' = log w ++ LogParsed (length questions) :: entries
     ∧ count_log is_attempt entries
         = (length questions - invalid_records questions)%nat
     ∧ count_log is_skip entries = invalid_records questions
     ∧ (count_log is_success entries
         ≤ length questions - invalid_records questions)%nat
     ∧ ui w' = ui w ++ (if questions is [] then []
                        else [added_message (count_log is_success entries)]))
  ∧ (∀ pre bad rest,
       questions = pre ++ bad :: rest →
       Forall (λ q, is_container q = true) pre →
       is_container bad = false →
       ∃ entries w',
         bulk_entry f w = (inr tt, w')
         ∧ log w' = log w ++ LogParsed (length questions) :: entries
                    ++ [LogUploadError TypeError]
         ∧ count_log is_attempt entries
             = (length pre - invalid_records pre)%nat
         ∧ count_log is_skip entries = invalid_records pre
         ∧ ui w' = ui w ++ [UiError "Failed to process the uploaded file."]).
Proof.
  intros Hf Hdec Hjson. split.
  - intros Hqs.
    destruct (bulk_entry_list f bytes json_data questions w Hf Hdec Hjson Hqs)
      as (entries & w' & Hrun & Hlog & _ & Hui & Hatt & Hskip & _).
    exists entries, w'. split_and!; try done; [lia|].
    assert (count_log is_success entries ≤ count_log is_attempt entries)%nat
      by (apply count_log_le; by intros []).
    lia.
  - intros pre bad rest -> Hpre Hbad.
    unfold_admin_page. rewrite Hf.
    unfold try_except at 1, any_exception, bind at 1, lift. rewrite Hdec.
    unfold bind at 1. rewrite (parse_list _ _ _ Hjson).
    destruct (bulk_loop_abort pre bad rest 0%nat
                (set_log (log w ++ [LogParsed (length (pre ++ bad :: rest))]) w)
                Hpre Hbad)
      as (entries & w1 & Hloop & Hlog & Hs & Hu & Hatt & Hskip).
    assert (pre ++ bad :: rest ≠ []) as Hne by by destruct pre.
    destruct (pre ++ bad :: rest) as [|q0 qs] eqn:Hqs; [done|].
    unfold bind at 1. rewrite Hloop.
    exists entries, (set_ui (ui w1 ++ [UiError "Failed to process the uploaded file."])
                       (set_log (log w1 ++ [LogUploadError TypeError]) w1)).
    cbn [log ui set_log set_ui] in *.
    split_and!; [done| |lia|done|by rewrite Hu].
    rewrite Hlog. by rewrite <- !app_assoc.
Qed.

(** C7, as the code has it.  After a bulk upload of a non-empty list of
    dicts, lists or strings the page shows, under its header, the single
    message "Successfully added N questions.", where N is the number of
    calls of [add_question] that returned [True], each of which added a
    row to the table; the number of submitted records does not appear.
    On a backend that does not fail N is the number of rows that the
    upload added. *)
Theorem bulk_upload_report (f : FormInputs) (bytes json_data : string)
    (questions : list pyval) (w : World) :
  add_method f = BulkEntry →
  uploaded_file f = Some bytes →
  utf8_decode bytes = inr json_data →
  json_loads json_data = inr (PList questions) →
  Forall (λ q, is_container q = true) questions →
  questions ≠ [] →
  ∃ entries w',
    admin_add_questions f w = (inr tt, w')
    ∧ log w' = log w ++ LogParsed (length questions) :: entries
    ∧ ui w' = ui w ++ [UiHeader "Admin Panel: Add New Questions";
                       added_message (count_log is_success entries)]
    ∧ (length (table w) + count_log is_success entries
       ≤ length (table w'))%nat
    ∧ (faults w = [] →
       length (table w')
       = (length (table w) + count_log is_success entries)%nat).
Proof.
  intros Hm Hf Hdec Hjson Hqs Hne.
  unfold_admin_root. unfold bind, st_show, get_db_session, modify.
  rewrite Hm.
  destruct (bulk_entry_list f bytes json_data questions
              (set_pending [] (set_ui (ui w ++ [UiHeader "Admin Panel: Add New Questions"]) w))
              Hf Hdec Hjson Hqs)
    as (entries & w' & Hrun & Hlog & _ & Hui & _ & _ & Htab).
  exists entries, w'. split; [exact Hrun|].
  cbn in Hlog, Hui, Htab. destruct (Htab eq_refl) as [Hle Heq].
  split_and!; try done.
  rewrite Hui, <- app_assoc. by destruct questions.
Qed.

(** C6, as the code has it.  When the uploaded text is not valid JSON, or
    is JSON whose top level is not a list, [parse_json_questions] returns
    the empty list, which is also what it returns for a text that parses
    to an empty list; on invalid JSON it shows "Invalid JSON format.";
    and the bulk path then calls [add_question] not once and leaves the
    table as it was. *)
Theorem parse_failure_returns_empty (f : FormInputs) (bytes json_data : string)
    (w : World) :
  uploaded_file f = Some bytes →
  utf8_decode bytes = inr json_data →
  (json_loads json_data = inl JSONDecodeError
   ∨ ∃ v, json_loads json_data = inr v ∧ is_list v = false) →
  (∃ w1, parse_json_questions json_data w = (inr [], w1)
         ∧ (json_loads json_data = inl JSONDecodeError →
            ui w1 = ui w ++ [UiError "Invalid JSON format."])
         ∧ ∀ empty_data, json_loads empty_data = inr (PList []) →
             (parse_json_questions empty_data w).1
             = (parse_json_questions json_data w).1)
  ∧ ∃ w', bulk_entry f w = (inr tt, w')
          ∧ table w' = table w
          ∧ count_log is_attempt (log w') = count_log is_attempt (log w)
          ∧ (json_loads json_data = inl JSONDecodeError →
             ui w' = ui w ++ [UiError "Invalid JSON format."]).
Proof.
  intros Hf Hdec Hfail.
  assert (∃ w1, parse_json_questions json_data w = (inr [], w1)
                ∧ table w1 = table w
                ∧ count_log is_attempt (log w1) = count_log is_attempt (log w)
                ∧ (json_loads json_data = inl JSONDecodeError →
                   ui w1 = ui w ++ [UiError "Invalid JSON format."]))
    as (w1 & Hparse & Ht & Hl & Hu).
  { destruct Hfail as [Herr | (v & Hv & Hnl)].
    - rewrite (parse_decode_error _ _ Herr). eexists. split; [done|].
      cbn [table log ui set_ui set_log]. rewrite count_log_app. cbn.
      split_and!; [done|lia|done].
    - rewrite (parse_not_list _ _ _ Hv Hnl). eexists. split; [done|].
      cbn [table log ui set_ui set_log]. rewrite count_log_app. cbn.
      split_and!; [done|lia|].
      intros Herr. congruence. }
  split.
  - exists w1. split_and!; [done|done|].
    intros empty_data Hempty. by rewrite Hparse, (parse_list _ _ _ Hempty).
  - exists w1. split_and!; try done.
    unfold_admin_page. rewrite Hf.
    unfold try_except, bind, lift. rewrite Hdec. by rewrite Hparse.
Qed.

(** C10.  An upload that parses to the empty list: the bulk path only
    logs the parse, so it makes no insert attempt, leaves the table alone
    and shows nothing, in particular no count of added questions. *)
Theorem empty_list_reports_nothing (f : FormInputs) (bytes json_data : string)
    (w : World) :
  uploaded_file f = Some bytes →
  utf8_decode bytes = inr json_data →
  json_loads json_data = inr (PList []) →
  bulk_entry f w = (inr tt, set_log (log w ++ [LogParsed 0]) w).
Proof.
  intros Hf Hdec Hjson. unfold_admin_page. rewrite Hf.
  unfold try_except, bind, lift. rewrite Hdec.
  by rewrite (parse_list _ _ _ Hjson).
Qed.

End UploadProperties.

(** ** The quiz controller *)

Ltac simpl_world :=
  cbn [table pending faults keys sstate ui log set_table set_pending
       set_faults set_keys
       set_sstate set_ui set_log current_question answers start_time
       time_limit set_current_question set_answers set_start_time
       set_time_limit] in *.

Lemma fetch_all_questions_spec w :
  ∃ questions w1,
    fetch_all_questions w = (inr questions, w1)
    ∧ sstate w1 = sstate w
    ∧ count_log is_submitted (log w1) = count_log is_submitted (log w)
    ∧ (questions = table w ∨ questions = []).
Proof.
  unfold fetch_all_questions, backend_fails.
  run_monad.
  destruct (faults w) as [|[] rest]; cbn; eexists _, _;
    (split; [reflexivity|]); cbn [sstate log set_log set_ui set_faults];
    rewrite ?count_log_app; cbn; split_and!; auto; lia.
Qed.

Lemma init_session_state_run inp w :
  init_session_state inp w = (inr tt, set_sstate (initialized inp (sstate w)) w).
Proof.
  unfold init_session_state. run_monad. cbn.
  destruct w as [t p f ks [c a s l] u lg]. cbn.
  by destruct c, a, s, l.
Qed.

Lemma submit_quiz_sstate questions w r w' :
  submit_quiz questions w = (r, w') → sstate w' = sstate w.
Proof.
  unfold submit_quiz, bind.
  pose proof (score_loop_world questions 0%nat [] w) as Hw.
  destruct (score_loop questions 0 [] w) as [[e|[score results]] w0];
    simpl in Hw; subst w0; by intros [= <- <-].
Qed.

Lemma review_question_sstate idx q w r w' :
  review_question idx q w = (r, w') → sstate w' = sstate w.
Proof.
  unfold review_question, read_state. run_monad. cbn [sstate set_ui].
  intros H. repeat (case_match; simplify_eq); cbn; done.
Qed.

Lemma review_loop_sstate questions : ∀ idx w r w',
  review_loop idx questions w = (r, w') → sstate w' = sstate w.
Proof.
  induction questions as [|q rest IH]; intros idx w r w'; cbn [review_loop].
  - by intros [= <- <-].
  - unfold bind.
    destruct (review_question idx q w) as [[e|[]] w1] eqn:Hq.
    + intros [= <- <-]. by eapply review_question_sstate.
    + intros H%IH. rewrite H. by eapply review_question_sstate.
Qed.

Lemma review_question_log idx q w r w' :
  review_question idx q w = (r, w') → log w' = log w.
Proof.
  unfold review_question, read_state. run_monad. cbn [sstate set_ui].
  intros H. repeat (case_match; simplify_eq); cbn; done.
Qed.

Lemma review_loop_log questions : ∀ idx w r w',
  review_loop idx questions w = (r, w') → log w' = log w.
Proof.
  induction questions as [|q rest IH]; intros idx w r w'; cbn [review_loop].
  - by intros [= <- <-].
  - unfold bind.
    destruct (review_question idx q w) as [[e|[]] w1] eqn:Hq.
    + intros [= <- <-]. by eapply review_question_log.
    + intros H%IH. rewrite H. by eapply review_question_log.
Qed.

Lemma review_answers_unchanged questions w r w' :
  review_answers questions w = (r, w') →
  sstate w' = sstate w ∧ log w' = log w.
Proof.
  unfold review_answers, bind, st_show, modify. intros H.
  split.
  - by apply review_loop_sstate in H.
  - by apply review_loop_log in H.
Qed.

Lemma display_question_spec inp questions w r w' :
  display_question inp questions w = (r, w') →
  current_question (sstate w') = current_question (sstate w)
  ∧ log w' = log w.
Proof.
  unfold display_question, st_radio, read_state. run_monad. simpl_world.
  intros H. repeat (case_match; simplify_eq); simpl_world; done.
Qed.

Lemma navigation_buttons_spec inp questions w r w' i :
  navigation_buttons inp questions w = (r, w') →
  current_question (sstate w) = Some i →
  current_question (sstate w')
  = Some (navigate (Z.of_nat (length questions)) inp i)
  ∧ (count_log is_submitted (log w') ≠ count_log is_submitted (log w) →
     btn_submit inp = true
     ∧ navigate (Z.of_nat (length questions)) inp i
       = Z.of_nat (length questions) - 1).
Proof.
  intros H Hi. unfold navigation_buttons, read_state in H. run_monad.
  rewrite Hi in H. unfold navigate.
  set (n := Z.of_nat (length questions)) in *.
  destruct (btn_previous inp && (i >? 0)); simpl_world;
    destruct (btn_save inp); simpl_world;
    try rewrite Hi in H;
    match type of H with
    | context [btn_next inp && (?j <? n - 1)] =>
        destruct (btn_next inp && (j <? n - 1)); simpl_world;
        [ injection H as <- <-; simpl_world; rewrite ?Hi;
          rewrite ?count_log_app; cbn; split; [done | intros Hc; exfalso; lia]
        | destruct (btn_submit inp && (j =? n - 1)) eqn:Hsub; simpl_world;
          [ apply andb_true_iff in Hsub as [Hs Hj]; apply Z.eqb_eq in Hj;
            pose proof (submit_quiz_sstate _ _ _ _ H) as Hss;
            rewrite Hss; simpl_world; rewrite ?Hi; done
          | injection H as <- <-; simpl_world; rewrite ?Hi;
            rewrite ?count_log_app; cbn; split; [done | intros Hc; exfalso; lia] ] ]
    end.
Qed.

Lemma bind_run {A B} (m : M A) (k : A → M B) w a w1 :
  m w = (inr a, w1) → bind m k w = k a w1.
Proof. intros H. unfold bind. by rewrite H. Qed.

Lemma time_is_up_remaining inp s :
  time_is_up inp s ↔ remaining inp s ≤ 0.
Proof. unfold time_is_up, remaining. lia. Qed.

(** The part of [take_quiz] that follows the fetch. *)
Lemma take_quiz_run inp w questions w1 :
  fetch_all_questions (set_pending [] w) = (inr questions, w1) →
  take_quiz inp w =
    if questions is [] then
      (inr tt,
       set_ui (ui w1 ++ [UiWarning
         "No questions available. Please contact the administrator."]) w1)
    else
      if remaining inp (sstate w1) <=? 0 then
        submit_quiz questions (time_up_world inp questions w1)
      else
        bind
          (if default 0 (current_question (sstate w1))
              <? Z.of_nat (length questions)
           then bind (display_question inp questions)
                  (λ _, navigation_buttons inp questions)
           else bind (st_show (UiSuccess "You have completed the quiz!"))
                  (λ _, submit_quiz questions))
          (λ _, if chk_review inp then review_answers questions else ret tt)
          (set_ui (ui w1 ++ [UiSidebarRemaining (remaining inp (sstate w1))])
             (set_sstate (initialized inp (sstate w1)) w1)).
Proof.
  intros Hfetch. unfold take_quiz.
  erewrite bind_run by reflexivity.
  erewrite bind_run by exact Hfetch.
  destruct questions as [|q rest]; [done|].
  erewrite bind_run by apply init_session_state_run.
  erewrite bind_run by reflexivity.
  erewrite bind_run by reflexivity.
  simpl_world. fold (remaining inp (sstate w1)).
  destruct (remaining inp (sstate w1) <=? 0).
  - erewrite bind_run by reflexivity.
    erewrite bind_run by reflexivity.
    reflexivity.
  - erewrite bind_run by reflexivity.
    erewrite bind_run by reflexivity.
    reflexivity.
Qed.

Lemma navigate_range n inp i :
  (0 ≤ i → 0 ≤ navigate n inp i) ∧ (i < n → navigate n inp i < n).
Proof.
  unfold navigate.
  destruct (btn_previous inp); simpl;
    [destruct (Z.gtb_spec i 0)|]; simpl;
    destruct (btn_next inp); simpl;
    try match goal with
        | |- context [?a <? ?b] => destruct (Z.ltb_spec a b)
        end; lia.
Qed.

(** C3, as the code has it.  On a render that fetched at least one
    question and on which now - start_time >= time_limit, [take_quiz] is
    the time-up path: it sets the index to the number of questions, shows
    the notice and calls [submit_quiz]; the index is that number when the
    render ends, whatever it was before and whether or not scoring
    raised; and the buttons and the selection of the render play no
    part. *)
Theorem timer_forces_completion (inp : Inputs) (w : World)
    (questions : list Question) (w1 : World) :
  fetch_all_questions (set_pending [] w) = (inr questions, w1) →
  questions ≠ [] →
  time_is_up inp (sstate w) →
  take_quiz inp w = submit_quiz questions (time_up_world inp questions w1)
  ∧ (∀ r w', take_quiz inp w = (r, w') →
       current_question (sstate w') = Some (Z.of_nat (length questions)))
  ∧ (∀ inp', now inp' = now inp → now_init inp' = now_init inp →
       take_quiz inp' w = take_quiz inp w).
Proof.
  intros Hfetch Hne Hup.
  destruct (fetch_all_questions_spec (set_pending [] w))
    as (qs & w1' & Hf' & Hs1 & _ & _).
  rewrite Hfetch in Hf'. injection Hf' as <- <-. simpl_world.
  assert (Hrun : ∀ inp', now inp' = now inp → now_init inp' = now_init inp →
            take_quiz inp' w
            = submit_quiz questions (time_up_world inp questions w1)).
  { intros inp' Hnow Hinit. rewrite (take_quiz_run inp' w questions w1 Hfetch).
    destruct questions as [|q rest]; [done|].
    assert ((remaining inp' (sstate w1) <=? 0) = true) as ->.
    { apply Z.leb_le. apply time_is_up_remaining.
      unfold time_is_up in *. rewrite Hs1, Hnow, Hinit. exact Hup. }
    unfold time_up_world, initialized. by rewrite Hinit. }
  split_and!.
  - by apply Hrun.
  - intros r w'. rewrite (Hrun inp eq_refl eq_refl).
    intros H%submit_quiz_sstate. by rewrite H.
  - intros inp' Hnow Hinit. by rewrite (Hrun inp' Hnow Hinit), (Hrun inp).
Qed.

(** C4.  Navigation bounds, for a render over the fetched [questions],
    N of them.  The index stays in [0, N].  From an index i < N, while
    time is left: Previous at 0 and Next at N - 1 leave the index where it
    is; on a render that returns, Previous alone leads to max(0, i - 1)
    and Next alone to min(N - 1, i + 1).  The index becomes N only when
    the time is up, and a score is produced only when the time is up, when
    the index had already reached N, or by Submit at index N - 1 (which
    scores without moving the index). *)
Theorem navigation_bounds (inp : Inputs) (w : World)
    (questions : list Question) (w1 : World) (r : exn + unit) (w' : World) :
  fetch_all_questions (set_pending [] w) = (inr questions, w1) →
  take_quiz inp w = (r, w') →
  (index_in_bounds (length questions) (sstate w) →
   index_in_bounds (length questions) (sstate w'))
  ∧ (∀ i, current_question (sstate w) = Some i →
       0 ≤ i < Z.of_nat (length questions) →
       ¬ time_is_up inp (sstate w) →
       (i = 0 → btn_next inp = false →
        current_question (sstate w') = Some 0)
       ∧ (i = Z.of_nat (length questions) - 1 → btn_previous inp = false →
          current_question (sstate w')
          = Some (Z.of_nat (length questions) - 1))
       ∧ (r = inr tt → btn_next inp = false →
          current_question (sstate w')
          = Some (if btn_previous inp then Z.max 0 (i - 1) else i))
       ∧ (r = inr tt → btn_previous inp = false →
          current_question (sstate w')
          = Some (if btn_next inp
                  then Z.min (Z.of_nat (length questions) - 1) (i + 1)
                  else i)))
  ∧ (current_question (sstate w') = Some (Z.of_nat (length questions)) →
     current_question (sstate w) = Some (Z.of_nat (length questions))
     ∨ (questions ≠ [] ∧ time_is_up inp (sstate w)))
  ∧ (count_log is_submitted (log w') ≠ count_log is_submitted (log w) →
     time_is_up inp (sstate w)
     ∨ (∃ i, current_question (sstate w) = Some i
             ∧ Z.of_nat (length questions) ≤ i)
     ∨ (btn_submit inp = true
        ∧ current_question (sstate w')
          = Some (Z.of_nat (length questions) - 1))).
Proof.
  intros Hfetch Hrun.
  destruct (fetch_all_questions_spec (set_pending [] w))
    as (qs & w1' & Hf' & Hs1 & Hl1 & _).
  rewrite Hfetch in Hf'. injection Hf' as <- <-. simpl_world.
  rewrite (take_quiz_run inp w questions w1 Hfetch) in Hrun.
  pose (n := Z.of_nat (length questions)).
  pose (i0 := default 0 (current_question (sstate w))).
  (* what the render does to the index and to the log *)
  assert (Hcases :
    (questions = [] ∧ sstate w' = sstate w
       ∧ count_log is_submitted (log w') = count_log is_submitted (log w))
    ∨ (questions ≠ [] ∧ time_is_up inp (sstate w)
       ∧ current_question (sstate w') = Some n)
    ∨ (questions ≠ [] ∧ ¬ time_is_up inp (sstate w)
       ∧ ((i0 < n
           ∧ (current_question (sstate w') = Some i0
              ∨ current_question (sstate w') = Some (navigate n inp i0))
           ∧ (r = inr tt →
              current_question (sstate w') = Some (navigate n inp i0))
           ∧ (count_log is_submitted (log w') ≠ count_log is_submitted (log w) →
              btn_submit inp = true
              ∧ current_question (sstate w') = Some (n - 1)))
          ∨ (n ≤ i0 ∧ current_question (sstate w') = Some i0)))).
  { subst n i0. destruct questions as [|q rest] eqn:Hqs.
    { left. injection Hrun as <- <-. simpl_world. by rewrite Hs1, Hl1. }
    rewrite <- Hqs in *. assert (questions ≠ []) as Hne by (by rewrite Hqs).
    clear Hqs. right.
    destruct (Z.leb_spec (remaining inp (sstate w1)) 0) as [Hle|Hgt].
    { left. split; [done|]. split.
      - apply time_is_up_remaining. by rewrite <- Hs1.
      - apply submit_quiz_sstate in Hrun. by rewrite Hrun. }
    right. split; [done|]. split.
    { rewrite time_is_up_remaining, <- Hs1. lia. }
    match type of Hrun with
    | context [set_ui ?u (set_sstate ?s w1)] =>
        remember (set_ui u (set_sstate s w1)) as w2 eqn:Hw2
    end.
    assert (Hi2 : current_question (sstate w2)
                  = Some (default 0 (current_question (sstate w)))).
    { subst w2. simpl_world. unfold initialized. cbn. by rewrite Hs1. }
    assert (Hl2 : log w2 = log w1) by (by subst w2).
    clear Hw2. rewrite Hs1 in Hrun. rewrite <- Hl1, <- Hl2.
    unfold bind at 1 in Hrun.
    (* the review, when asked for, changes neither the index nor the log *)
    assert (Hreview : ∀ wa ra, 
              (if chk_review inp then review_answers questions else ret tt) wa
              = (ra, w') →
              sstate w' = sstate wa ∧ log w' = log wa).
    { intros wa ra. destruct (chk_review inp).
      - apply review_answers_unchanged.
      - by intros [= <- <-]. }
    destruct (Z.ltb_spec (default 0 (current_question (sstate w)))
                (Z.of_nat (length questions))) as [Hlt|Hge].
    - left. split; [done|].
      unfold bind at 1 in Hrun.
      destruct (display_question inp questions w2) as [rd wd] eqn:Hd.
      apply display_question_spec in Hd as [Hdi Hdl].
      rewrite Hi2 in Hdi. rewrite <- Hdl.
      destruct rd as [e|[]].
      { injection Hrun as <- <-. split_and!; [by left|done|done]. }
      destruct (navigation_buttons inp questions wd) as [rn wn] eqn:Hn.
      pose proof (navigation_buttons_spec _ _ _ _ _ _ Hn Hdi) as [Hni Hnl].
      destruct rn as [e|[]].
      { injection Hrun as <- <-. split_and!; [by right|done|].
        intros Hc. destruct (Hnl Hc) as [? Heq]. by rewrite Hni, Heq. }
      apply Hreview in Hrun as [Hrs Hrl]. rewrite Hrs, Hrl.
      split_and!; [by right|done|].
      intros Hc. destruct (Hnl Hc) as [? Heq]. by rewrite Hni, Heq.
    - right. split; [done|].
      unfold bind at 1, st_show, modify in Hrun.
      match type of Hrun with
      | context [submit_quiz questions ?wx] =>
          destruct (submit_quiz questions wx) as [rs ws] eqn:Hsub
      end.
      apply submit_quiz_sstate in Hsub. simpl_world.
      destruct rs as [e|[]].
      + injection Hrun as <- <-. by rewrite Hsub.
      + apply Hreview in Hrun as [Hrs _]. by rewrite Hrs, Hsub. }
  assert (Hn : n = Z.of_nat (length questions)) by done.
  assert (Hi0 : i0 = default 0 (current_question (sstate w))) by done.
  assert (Hpos : questions ≠ [] → 1 ≤ n).
  { intros Hne. subst n. destruct questions; [done|]. simpl. lia. }
  clearbody n i0. rewrite <- !Hn. clear Hrun Hfetch.
  unfold index_in_bounds. rewrite <- Hn.
  destruct Hcases as [(Hnil & Hs & Hl) | [(Hne & Hup & Hidx)
      | (Hne & Hnup & [(Hlt & Hor & Hret & Hlog) | (Hge & Hidx)])]].
  - rewrite Hs. split_and!; [done| |by left|done].
    intros i Hi Hrange. subst questions. simpl in Hn. lia.
  - rewrite Hidx. specialize (Hpos Hne). split_and!.
    + intros _. lia.
    + intros i Hi Hrange Hnup. done.
    + intros _. right. done.
    + intros _. by left.
  - pose proof (navigate_range n inp i0) as Hnav.
    split_and!.
    + intros Hb. assert (0 ≤ i0).
      { subst i0. destruct (current_question (sstate w)); simpl in *; lia. }
      destruct Hor as [-> | ->]; lia.
    + intros i Hi Hrange _. rewrite Hi in Hi0. simpl in Hi0. subst i0.
      split_and!.
      * intros -> Hnext. destruct Hor as [-> | ->]; [done|].
        f_equal. unfold navigate. rewrite Hnext. simpl.
        by rewrite andb_false_r.
      * intros -> Hprev. destruct Hor as [-> | ->]; [done|].
        f_equal. unfold navigate. rewrite Hprev. simpl.
        destruct (btn_next inp); simpl; [|done].
        destruct (Z.ltb_spec (n - 1) (n - 1)); [lia|done].
      * intros Hr Hnext. rewrite (Hret Hr). f_equal.
        unfold navigate. rewrite Hnext. simpl.
        destruct (btn_previous inp); simpl; [|done].
        destruct (Z.gtb_spec i 0); lia.
      * intros Hr Hprev. rewrite (Hret Hr). f_equal.
        unfold navigate. rewrite Hprev. simpl.
        destruct (btn_next inp); simpl; [|done].
        destruct (Z.ltb_spec i (n - 1)); lia.
    + intros Hc. exfalso. destruct Hor as [Hx | Hx]; rewrite Hx in Hc;
        injection Hc as Hc; lia.
    + intros Hc. right. right. by apply Hlog.
  - specialize (Hpos Hne).
    assert (Hsome : current_question (sstate w) = Some i0).
    { subst i0. destruct (current_question (sstate w)); simpl in *; [done|lia]. }
    rewrite Hidx, Hsome. split_and!.
    + done.
    + intros i [= ->] Hrange. lia.
    + intros [= ->]. by left.
    + intros _. right. left. by exists i0.
Qed.

(** ** Invariants of the store and of the admin page *)

Lemma table_extends_refl t : table_extends t t.
Proof. exists []. by rewrite app_nil_r. Qed.

Lemma table_extends_trans t1 t2 t3 :
  table_extends t1 t2 → table_extends t2 t3 → table_extends t1 t3.
Proof.
  intros (r1 & -> & H1 & N1) (r2 & -> & H2 & N2).
  exists (r1 ++ r2). rewrite <- app_assoc. split_and!.
  - done.
  - by apply Forall_app.
  - intros Hnd. rewrite app_assoc. auto.
Qed.

Lemma store_step_same w w' :
  table w' = table w → pending w' = pending w → sstate w' = sstate w →
  store_step w w'.
Proof.
  intros Ht Hp Hs. split_and!; [|congruence|done].
  rewrite Ht. apply table_extends_refl.
Qed.

Lemma store_step_refl w : store_step w w.
Proof. by apply store_step_same. Qed.

Lemma store_step_trans w1 w2 w3 :
  store_step w1 w2 → store_step w2 w3 → store_step w1 w3.
Proof.
  intros (T1 & P1 & S1) (T2 & P2 & S2). split_and!.
  - by eapply table_extends_trans.
  - auto.
  - congruence.
Qed.

Ltac same_store := apply store_step_same; reflexivity.

(** X1.  [fetch_all_questions] never raises and never writes the table,
    the pending objects or the session state; it sends one statement to
    the backend.  When that statement succeeds it returns the whole table
    and logs its size; when it fails it returns the empty list, shows
    "Failed to retrieve questions." and logs the error. *)
Theorem fetch_all_questions_absorbs_errors (w : World) :
  ∃ questions w',
    fetch_all_questions w = (inr questions, w')
    ∧ table w' = table w ∧ pending w' = pending w ∧ sstate w' = sstate w
    ∧ faults w' = tail (faults w)
    ∧ ((head (faults w) ≠ Some true
        ∧ questions = table w ∧ ui w' = ui w
        ∧ log w' = log w ++ [LogFetched (length (table w))])
       ∨ (head (faults w) = Some true
          ∧ questions = []
          ∧ ui w' = ui w ++ [UiError "Failed to retrieve questions."]
          ∧ log w' = log w ++ [LogFetchError])).
Proof.
  unfold fetch_all_questions, backend_fails. run_monad.
  destruct (faults w) as [|[] rest] eqn:Hf; cbn; eexists _, _;
    (split; [reflexivity|]); cbn; rewrite ?Hf; split_and!; try done.
  - left. split_and!; done.
  - right. split_and!; done.
  - left. split_and!; done.
Qed.

Lemma fetch_healthy w :
  head (faults w) ≠ Some true →
  fetch_all_questions w
  = (inr (table w),
     set_log (log w ++ [LogFetched (length (table w))])
       (set_faults (tail (faults w)) w)).
Proof.
  intros Hok. unfold fetch_all_questions, backend_fails. run_monad.
  destruct w as [t p fs ks s u l]. cbn in *. by destruct fs as [|[] rest].
Qed.

Ltac unfold_bulk_entry := unfold bulk_entry.

Section StoreInvariants.
Variable class_attribute : string -> bool.
Variable adapt_text : pyval -> option string.
Variable adapt_int : pyval -> option Z.

Local Abbreviation hasattr_Question := (hasattr_Question class_attribute).
Local Abbreviation new_Question := (new_Question class_attribute).
Local Abbreviation insert_row := (insert_row adapt_text adapt_int).
Local Abbreviation flush := (flush adapt_text adapt_int).
Local Abbreviation add_question :=
  (add_question class_attribute adapt_text adapt_int).
Local Abbreviation bulk_loop :=
  (bulk_loop class_attribute adapt_text adapt_int).
Local Abbreviation single_entry :=
  (single_entry class_attribute adapt_text adapt_int).

Lemma primary_key_fresh t ks v z ks' :
  primary_key adapt_int t ks v = (Some z, ks') →
  (z ∉ id <$> t) ∧ in_int4 z = true.
Proof.
  unfold primary_key.
  assert (∀ y, (if in_int4 y && negb (bool_decide (y ∈ id <$> t))
                then Some y else None) = Some z
               → (z ∉ id <$> t) ∧ in_int4 z = true) as Hstored.
  { intros y. destruct (in_int4 y) eqn:Hy; [|done]. cbn.
    case_bool_decide; [done|]. cbn. by intros [= <-]. }
  destruct v; try (intros [= H _]; by apply (Hstored _ H));
    try (intros [= H _]; destruct (adapt_int _) as [y|]; cbn in H;
         [by apply (Hstored y)|done]).
  destruct ks as [|k ks0]; [done|]. intros [= H _]. by apply (Hstored k).
Qed.

Lemma insert_row_id t ks o row ks' :
  insert_row t ks o = (Some row, ks') → id row ∉ id <$> t.
Proof.
  unfold insert_row.
  destruct (primary_key adapt_int t ks (o_id o)) as [[z|] ks1] eqn:Hpk;
    [|by intros [= H _]].
  apply primary_key_fresh in Hpk as [Hpk _]. intros [= H _].
  by simplify_option_eq.
Qed.

Lemma insert_row_not_null t ks o row ks' :
  insert_row t ks o = (Some row, ks') →
  o_question_text o ≠ PNone ∧ o_option_a o ≠ PNone ∧ o_option_b o ≠ PNone
  ∧ o_option_c o ≠ PNone ∧ o_option_d o ≠ PNone ∧ o_correct_option o ≠ PNone.
Proof.
  unfold insert_row.
  destruct (primary_key adapt_int t ks (o_id o)) as [key ks1].
  intros [= H _]. simplify_option_eq.
  split_and!; intros Hnone;
    match goal with
    | Hx : _ = Some _ |- _ => rewrite Hnone in Hx; discriminate Hx
    end.
Qed.

Lemma flush_extends objs : ∀ t ks t' ks',
  flush t ks objs = (Some t', ks') → table_extends t t'.
Proof.
  induction objs as [|o rest IH]; intros t ks t' ks'; step_flush.
  - intros [= <- _]. apply table_extends_refl.
  - destruct (insert_row t ks o) as [[row|] ks1] eqn:Hrow; [|done].
    intros Hrest%IH. eapply table_extends_trans; [|exact Hrest].
    exists [row]. split_and!; [done| |].
    + apply Forall_singleton. by eapply insert_row_constraint.
    + intros Ht. rewrite fmap_app. apply NoDup_app. split_and!; [done| |].
      * intros x Hx Hx'. apply list_elem_of_singleton in Hx'. subst x.
        by apply insert_row_id in Hrow.
      * apply NoDup_singleton.
Qed.

(** The table after [add_question] is the table before, or the table
    that the flush of the new object gave. *)
Lemma add_question_table question_data w :
  table (add_question question_data w).2 = table w
  ∨ ∃ o t ks,
      new_Question question_data = inr o
      ∧ flush (table w) (keys w) (pending w ++ [o]) = (Some t, ks)
      ∧ table (add_question question_data w).2 = t.
Proof.
  rewrite add_question_run.
  destruct (new_Question question_data) as [e|o]; [by left|].
  destruct (flush (table w) (keys w) (pending w ++ [o])) as [[t1|] ks1]
    eqn:Hflush.
  - destruct (faults w) as [|[] [|[] ?]]; cbn;
      first [by left | right; by exists o, t1, ks1].
  - left. by destruct (faults w) as [|[] ?].
Qed.


(** X3.  A record in which one of the six [nullable=False] columns is
    absent or [None] is refused: [add_question] returns [False] and the
    table is as before, whatever the other fields, the backend's faults
    and the objects already pending. *)
Theorem add_question_requires_columns (d : gmap string pyval) (col : string)
    (w : World) :
  col ∈ not_null_columns →
  default PNone (d !! col) = PNone →
  ∃ w', add_question (PDict d) w = (inr false, w') ∧ table w' = table w.
Proof.
  intros Hcol Hnull.
  assert (Hrefused : ∀ o t ks,
    new_Question (PDict d) = inr o →
    flush (table w) (keys w) (pending w ++ [o]) = (Some t, ks) → False).
  { intros o t ks Hnew Hflush.
    apply flush_last_inserted in Hflush as (t0 & ks0 & row & Hrow & _).
    apply insert_row_not_null in Hrow.
    unfold_new_Question_in Hnew. case_match; [|done].
    injection Hnew as <-. cbn in Hrow.
    unfold not_null_columns in Hcol.
    rewrite !elem_of_cons, elem_of_nil in Hcol.
    destruct Hrow as (? & ? & ? & ? & ? & ?).
    destruct Hcol as [->|[->|[->|[->|[->|[->|[]]]]]]]; congruence. }
  destruct (add_question_spec class_attribute adapt_text adapt_int
              (PDict d) w)
    as (b & w' & entry & rows & Hrun & _ & _ & _ & _ & _ & _ & Ht & Hb & _).
  destruct (add_question_table (PDict d) w) as [Hsame|(o & t & ks & Hnew & Hflush & _)];
    [|by destruct (Hrefused o t ks)].
  rewrite Hrun in Hsame. cbn in Hsame.
  destruct b; [|by exists w'].
  destruct (Hb eq_refl) as [_ Hlen].
  apply (f_equal length) in Hsame. rewrite Ht, length_app in Hsame. lia.
Qed.

Lemma hasattr_all (d : gmap string pyval) :
  forallb hasattr_Question (elements (dom d)) = true
  ↔ ∀ key, key ∈ dom d → hasattr_Question key = true.
Proof.
  rewrite forallb_forall. split.
  - intros H key Hkey. apply H, list_elem_of_In. by apply elem_of_elements.
  - intros H key Hkey%list_elem_of_In. by apply H, elem_of_elements.
Qed.

(** X4.  A [question_data] that is not a mapping, or that has a key
    which is no attribute of class [Question], makes the constructor
    call of line 132 raise [TypeError]: [add_question] returns [False]
    after the rollback, logs the error, and has sent nothing to the
    backend. *)
Theorem add_question_rejects_unknown_keys (question_data : pyval) (w : World) :
  (∀ d, question_data = PDict d →
     ∃ key, key ∈ dom d ∧ hasattr_Question key = false) →
  add_question question_data w
  = (inr false,
     set_log (log w ++ [LogAddError TypeError]) (set_pending [] w)).
Proof.
  intros Hbad. rewrite add_question_run.
  assert (new_Question question_data = inl TypeError) as ->; [|done].
  unfold_new_Question. destruct question_data as [| | | | | |d]; try done.
  destruct (Hbad d eq_refl) as (key & Hkey & Hno).
  case_match eqn:Hall; [|done].
  rewrite hasattr_all in Hall. rewrite (Hall key Hkey) in Hno. done.
Qed.

(** The object that the constructor builds from the form. *)
Lemma new_Question_form f :
  new_Question (form_question_data f)
  = inr (mkQuestionObj PNone (PStr (f_question_text f)) (PStr (f_option_a f))
           (PStr (f_option_b f)) (PStr (f_option_c f)) (PStr (f_option_d f))
           (PStr (f_correct_option f)) (PStr (f_explanation f))).
Proof.
  unfold_new_Question. unfold form_question_data.
  destruct f as [m qt a b c d co ex sub up]. cbn [f_question_text f_option_a
    f_option_b f_option_c f_option_d f_correct_option f_explanation].
  vm_compute. reflexivity.
Qed.

(** Its INSERT: the sequence gives the key, the column cuts the correct
    option. *)
Lemma flush_form f t ks :
  flush t ks
    [mkQuestionObj PNone (PStr (f_question_text f)) (PStr (f_option_a f))
       (PStr (f_option_b f)) (PStr (f_option_c f)) (PStr (f_option_d f))
       (PStr (f_correct_option f)) (PStr (f_explanation f))]
  = match ks with
    | [] => (None, [])
    | i :: ks' =>
        (if in_int4 i && negb (bool_decide (i ∈ id <$> t))
         then match varchar1 (f_correct_option f) with
              | Some k =>
                  if is_option_key k then Some (t ++ [form_row i k f])
                  else None
              | None => None
              end
         else None,
         ks')
    end.
Proof.
  step_flush. unfold insert_row, primary_key. cbn.
  destruct ks as [|i ks']; [done|].
  destruct (in_int4 i && negb (bool_decide (i ∈ id <$> t))); [|done].
  cbn. destruct (varchar1 (f_correct_option f)) as [k|]; [|done].
  cbn. by destruct (is_option_key k).
Qed.

Lemma varchar1_option_key s k :
  s ∈ option_keys → varchar1 s = Some k → k = s.
Proof.
  unfold option_keys. rewrite !elem_of_cons, elem_of_nil.
  intros [->|[->|[->|[->|[]]]]]; cbn; congruence.
Qed.

(** X5.  Round trip of the single-entry form.  When [add_question]
    returns [True] on the dict of lines 336-344, with nothing pending
    before, the table has gained exactly one row: the form's fields as
    typed, except that the correct option is cut to the column (a letter
    of A-D as the selectbox gives it is kept as it is), under the key
    that the sequence handed out, which no earlier row has; and the next
    [fetch_all_questions], unless its query fails, returns the old rows
    followed by that row. *)
Theorem form_insert_round_trip (f : FormInputs) (w w' : World) :
  pending w = [] →
  add_question (form_question_data f) w = (inr true, w') →
  ∃ i k,
    head (keys w) = Some i
    ∧ varchar1 (f_correct_option f) = Some k
    ∧ k ∈ option_keys
    ∧ (f_correct_option f ∈ option_keys → k = f_correct_option f)
    ∧ table w' = table w ++ [form_row i k f]
    ∧ (i ∉ id <$> table w)
    ∧ (head (faults w') ≠ Some true →
       (fetch_all_questions w').1 = inr (table w ++ [form_row i k f])).
Proof.
  intros Hp. rewrite add_question_run, (new_Question_form f), Hp.
  cbn [app]. rewrite flush_form.
  destruct (keys w) as [|i ks]; [by destruct (faults w) as [|[] ?]|].
  destruct (in_int4 i && negb (bool_decide (i ∈ id <$> table w))) eqn:Hkey;
    [|by destruct (faults w) as [|[] ?]].
  destruct (varchar1 (f_correct_option f)) as [k|] eqn:Hk;
    [|by destruct (faults w) as [|[] ?]].
  destruct (is_option_key k) eqn:Hletter;
    [|by destruct (faults w) as [|[] ?]].
  intros Hrun.
  assert (Htab : table w' = table w ++ [form_row i k f]).
  { destruct (faults w) as [|[] [|[] ?]]; cbn in Hrun; simplify_eq; done. }
  exists i, k. split_and!; try done.
  - by apply bool_decide_eq_true in Hletter.
  - intros Hin. by eapply varchar1_option_key.
  - apply andb_true_iff in Hkey as [_ Hnew].
    apply negb_true_iff in Hnew. by apply bool_decide_eq_false in Hnew.
  - intros Hok. rewrite (fetch_healthy w' Hok). cbn. by rewrite Htab.
Qed.


Lemma add_question_store question_data w :
  store_step w (add_question question_data w).2.
Proof.
  destruct (add_question_spec class_attribute adapt_text adapt_int
              question_data w)
    as (b & w' & entry & rows & Hrun & Hp & Hs & _).
  destruct (add_question_table question_data w)
    as [Hsame|(o & t & ks & _ & Hflush & Ht)];
    rewrite Hrun in *; cbn [snd] in *.
  - split_and!; [|done..]. rewrite Hsame. apply table_extends_refl.
  - split_and!; [|done..]. rewrite Ht. by eapply flush_extends.
Qed.

Lemma bulk_loop_store questions : ∀ success_count w,
  store_step w (bulk_loop questions success_count w).2.
Proof.
  induction questions as [|q rest IH]; intros n w; [apply store_step_refl|].
  step_bulk_loop. unfold bind at 1, lift.
  destruct (all_in required_fields q) as [e|[]]; cbn beta iota.
  - apply store_step_refl.
  - unfold bind at 1.
    pose proof (add_question_store q w) as Hadd.
    destruct (add_question q w) as [[e|b] w1]; cbn in Hadd; [done|].
    eapply store_step_trans; [exact Hadd|]. apply IH.
  - unfold bind at 1, logger, modify.
    apply (IH n (set_log (log w ++ [LogMissingFields q]) w)).
Qed.

Lemma single_entry_store f w : store_step w (single_entry f w).2.
Proof.
  unfold_admin_page. unfold bind at 1, st_show at 1, modify at 1.
  set (w0 := set_ui _ w).
  assert (store_step w w0) as H0 by same_store.
  destruct (submitted f); [|done].
  destruct (forallb _ _); [|same_store].
  unfold bind.
  pose proof (add_question_store (form_question_data f) w0) as Hadd.
  destruct (add_question _ w0) as [[e|[]] w1]; cbn in *;
    (eapply store_step_trans; [exact H0|]); [done|..];
    (eapply store_step_trans; [exact Hadd|]); same_store.
Qed.

Lemma single_entry_returns f w : (single_entry f w).1 = inr tt.
Proof.
  unfold_admin_page. unfold bind at 1, st_show at 1, modify at 1.
  destruct (submitted f); [|done].
  destruct (forallb _ _); [|done].
  unfold bind.
  destruct (add_question_spec class_attribute adapt_text adapt_int
              (form_question_data f)
              (set_ui (ui w ++ [UiSubheader "Add a New Question"]) w))
    as (b & w' & entry & rows & -> & _). by destruct b.
Qed.
End StoreInvariants.

Section UploadInvariants.
Variable class_attribute : string -> bool.
Variable adapt_text : pyval -> option string.
Variable adapt_int : pyval -> option Z.
Variable utf8_decode : string -> exn + string.
Variable json_loads : string -> exn + pyval.

Local Abbreviation parse_json_questions := (parse_json_questions json_loads).
Local Abbreviation bulk_entry :=
  (bulk_entry class_attribute adapt_text adapt_int utf8_decode json_loads).
Local Abbreviation admin_add_questions :=
  (admin_add_questions class_attribute adapt_text adapt_int utf8_decode
     json_loads).

Lemma parse_json_questions_store json_data w :
  store_step w (parse_json_questions json_data w).2.
Proof.
  unfold_admin_page. run_monad.
  destruct (json_loads json_data) as [e|v].
  - case_bool_decide; same_store.
  - destruct v; same_store.
Qed.

Lemma bulk_entry_store f w : store_step w (bulk_entry f w).2.
Proof.
  unfold_bulk_entry. destruct (uploaded_file f) as [bytes|];
    [|apply store_step_refl].
  unfold try_except at 1, any_exception, bind at 1, lift.
  destruct (utf8_decode bytes) as [e|json_data]; [same_store|].
  unfold bind at 1.
  pose proof (parse_json_questions_store json_data w) as Hparse.
  destruct (parse_json_questions json_data w) as [[e|questions] w1];
    cbn in Hparse;
    (eapply store_step_trans; [exact Hparse|]); [same_store|].
  destruct questions as [|q rest]; [apply store_step_refl|].
  unfold bind at 1.
  pose proof (bulk_loop_store class_attribute adapt_text adapt_int
                (q :: rest) 0 w1) as Hloop.
  destruct (bulk_loop _ _ _ _ _ w1) as [[e|n] w2]; cbn in Hloop;
    (eapply store_step_trans; [exact Hloop|]); same_store.
Qed.

Lemma bulk_entry_returns f w : (bulk_entry f w).1 = inr tt.
Proof.
  unfold_bulk_entry. destruct (uploaded_file f) as [bytes|]; [|done].
  unfold try_except at 1, any_exception.
  destruct (bind _ _ w) as [[e|[]] w1]; done.
Qed.

Lemma admin_add_questions_run f w :
  ∃ w', admin_add_questions f w = (inr tt, w')
        ∧ table_extends (table w) (table w')
        ∧ pending w' = [] ∧ sstate w' = sstate w.
Proof.
  unfold_admin_root. unfold bind, st_show, get_db_session, modify.
  set (w0 := set_pending [] _).
  assert (∃ r, (match add_method f with
                | SingleEntry =>
                    single_entry class_attribute adapt_text adapt_int f
                | BulkEntry => bulk_entry f
                end w0) = (inr tt, r) ∧ store_step w0 r) as (w' & -> & Hstep).
  { destruct (add_method f).
    - pose proof (single_entry_returns class_attribute adapt_text adapt_int
                    f w0).
      pose proof (single_entry_store class_attribute adapt_text adapt_int
                    f w0).
      destruct (single_entry _ _ _ f w0) as [r w']. cbn in *. subst.
      by exists w'.
    - pose proof (bulk_entry_returns f w0).
      pose proof (bulk_entry_store f w0).
      destruct (bulk_entry f w0) as [r w']. cbn in *. subst. by exists w'. }
  exists w'. destruct Hstep as (Ht & Hp & Hs).
  split_and!; [done|exact Ht|by apply Hp|exact Hs].
Qed.


(** X7.  The admin page only appends to the table, and every row it
    appends has its correct option among A, B, C and D: no stored row is
    removed, changed or reordered. *)
Theorem admin_add_questions_appends_checked_rows (f : FormInputs) (w : World) :
  ∃ rows,
    table (admin_add_questions f w).2 = table w ++ rows
    ∧ Forall (λ q, correct_option q ∈ option_keys) rows.
Proof.
  destruct (admin_add_questions_run f w) as (w' & -> & (rows & ? & ? & _) & _).
  by exists rows.
Qed.

(** X8.  The admin page keeps the primary keys distinct: if no two rows
    share an id before, none do after, also when uploaded records bring
    ids of their own. *)
Theorem admin_add_questions_keeps_ids_unique (f : FormInputs) (w : World) :
  NoDup (id <$> table w) →
  NoDup (id <$> table (admin_add_questions f w).2).
Proof.
  destruct (admin_add_questions_run f w)
    as (w' & -> & (rows & _ & _ & Hnd) & _).
  exact Hnd.
Qed.

(** X9.  The admin page leaves the quiz's session state (index, answers,
    timer) as it was, and ends with no object pending in the database
    session. *)
Theorem admin_add_questions_keeps_quiz_state (f : FormInputs) (w : World) :
  sstate (admin_add_questions f w).2 = sstate w
  ∧ pending (admin_add_questions f w).2 = [].
Proof.
  by destruct (admin_add_questions_run f w) as (w' & -> & _ & ? & ?).
Qed.

(** X10.  An upload that cannot be decoded as UTF-8, or on which the
    parser raises anything but [JSONDecodeError] (which
    [parse_json_questions] does not catch), ends in the handler of lines
    373-375: the exception is logged, "Failed to process the uploaded
    file." is shown, nothing else is shown or logged, and the store is
    not touched. *)
Theorem bulk_entry_reports_failure (f : FormInputs) (bytes : string)
    (e : exn) (w : World) :
  uploaded_file f = Some bytes →
  utf8_decode bytes = inl e
  ∨ (∃ json_data, utf8_decode bytes = inr json_data
                  ∧ json_loads json_data = inl e ∧ e ≠ JSONDecodeError) →
  bulk_entry f w
  = (inr tt,
     set_ui (ui w ++ [UiError "Failed to process the uploaded file."])
       (set_log (log w ++ [LogUploadError e]) w)).
Proof.
  intros Hfile Hfail. unfold_bulk_entry. rewrite Hfile.
  unfold try_except at 1, any_exception, bind at 1, lift.
  destruct Hfail as [-> | (json_data & -> & Hload & Hne)]; [done|].
  unfold bind at 1. unfold_admin_page. unfold try_except, bind at 1, lift.
  rewrite Hload. by rewrite bool_decide_eq_false_2.
Qed.
End UploadInvariants.

(** ** Invariants of the quiz page *)

Lemma quiz_effects_ret {A} (a : A) : quiz_effects (ret a).
Proof. intros w. apply rtc_refl. Qed.

Lemma quiz_effects_raise {A} e : quiz_effects (@raise A e).
Proof. intros w. apply rtc_refl. Qed.

Lemma quiz_effects_lift {A} (r : exn + A) : quiz_effects (lift r).
Proof. intros w. apply rtc_refl. Qed.

Lemma quiz_effects_get_world : quiz_effects get_world.
Proof. intros w. apply rtc_refl. Qed.

Lemma quiz_effects_read_state {A} (field : SessionState → option A) :
  quiz_effects (read_state field).
Proof. intros w. unfold read_state. destruct (field _); apply rtc_refl. Qed.

Lemma quiz_effects_bind {A B} (m : M A) (k : A → M B) :
  quiz_effects m → (∀ a, quiz_effects (k a)) → quiz_effects (bind m k).
Proof.
  intros Hm Hk w. unfold bind. specialize (Hm w).
  destruct (m w) as [[e|a] w1]; [done|].
  etrans; [exact Hm|]. apply Hk.
Qed.

Lemma quiz_effects_try_except {A} (m : M A) catches h :
  quiz_effects m → (∀ e, quiz_effects (h e)) →
  quiz_effects (try_except m catches h).
Proof.
  intros Hm Hh w. unfold try_except. specialize (Hm w).
  destruct (m w) as [[e|a] w1]; [|done].
  destruct (catches e); [|done]. etrans; [exact Hm|]. apply Hh.
Qed.

Lemma quiz_effects_st_show e : quiz_effects (st_show e).
Proof. intros w. apply rtc_once, upd_ui. Qed.

Lemma quiz_effects_logger e : quiz_effects (logger e).
Proof. intros w. apply rtc_once, upd_log. Qed.

Lemma quiz_effects_set_index i :
  quiz_effects (modify_state (set_current_question i)).
Proof. intros w. apply rtc_once, upd_index. Qed.

Lemma set_sstate_same w : set_sstate (sstate w) w = w.
Proof. by destruct w. Qed.

Lemma quiz_effects_backend_fails : quiz_effects backend_fails.
Proof.
  intros w. unfold backend_fails.
  destruct (faults w) as [|f rest] eqn:Hf; [apply rtc_refl|].
  replace rest with (tail (faults w)) by by rewrite Hf.
  apply rtc_once, upd_faults.
Qed.

Lemma quiz_effects_get_db_session : quiz_effects get_db_session.
Proof. intros w. apply rtc_once, upd_pending. Qed.

Lemma quiz_effects_init_session_state inp :
  quiz_effects (init_session_state inp).
Proof.
  unfold init_session_state.
  repeat (apply quiz_effects_bind; [|intros _]); intros w;
    unfold modify_state, modify; cbn [snd].
  - destruct (current_question (sstate w));
      [rewrite set_sstate_same; apply rtc_refl|apply rtc_once, upd_index].
  - destruct (answers (sstate w)) eqn:H;
      [rewrite set_sstate_same; apply rtc_refl|
       by apply rtc_once, upd_answers_init].
  - destruct (start_time (sstate w)) eqn:H;
      [rewrite set_sstate_same; apply rtc_refl|
       by apply rtc_once, upd_start_time].
  - destruct (time_limit (sstate w)) eqn:H;
      [rewrite set_sstate_same; apply rtc_refl|
       by apply rtc_once, upd_time_limit].
Qed.

Lemma quiz_effects_st_radio options index value :
  quiz_effects (st_radio options index value).
Proof. intros w. unfold st_radio. case_match; apply rtc_refl. Qed.

Lemma quiz_effects_record_answer k key :
  quiz_effects
    (let! a := read_state answers in
     modify_state (set_answers (<[k := key_str key]> a))).
Proof.
  intros w. unfold bind, read_state, modify_state, modify.
  destruct (answers (sstate w)) as [a|] eqn:Ha; [|apply rtc_refl].
  by apply rtc_once, upd_answer.
Qed.

(** One syntactic step through a computation of the quiz page. *)
Ltac quiz_effects_step :=
  first
    [ apply quiz_effects_record_answer
    | apply quiz_effects_st_radio
    | apply quiz_effects_init_session_state
    | apply quiz_effects_get_db_session
    | apply quiz_effects_backend_fails
    | apply quiz_effects_bind; [|intros ?]
    | apply quiz_effects_try_except; [|intros ?]
    | apply quiz_effects_ret
    | apply quiz_effects_raise
    | apply quiz_effects_lift
    | apply quiz_effects_get_world
    | apply quiz_effects_read_state
    | apply quiz_effects_st_show
    | apply quiz_effects_logger
    | apply quiz_effects_set_index
    | match goal with
      | |- quiz_effects (if ?b then _ else _) => destruct b
      | |- quiz_effects (match ?x with _ => _ end) => destruct x
      end ].

Lemma quiz_effects_score_loop questions : ∀ score results,
  quiz_effects (score_loop questions score results).
Proof.
  intros score results w. rewrite score_loop_world. apply rtc_refl.
Qed.

Lemma quiz_effects_submit_quiz questions :
  quiz_effects (submit_quiz questions).
Proof.
  unfold submit_quiz. apply quiz_effects_bind;
    [apply quiz_effects_score_loop|intros [score results]].
  repeat quiz_effects_step.
Qed.

Lemma quiz_effects_review_question idx q :
  quiz_effects (review_question idx q).
Proof. unfold review_question. repeat quiz_effects_step. Qed.

Lemma quiz_effects_review_answers questions :
  quiz_effects (review_answers questions).
Proof.
  unfold review_answers. apply quiz_effects_bind; [quiz_effects_step|intros _].
  generalize 1%nat.
  induction questions as [|q rest IH]; intros idx; cbn [review_loop].
  - quiz_effects_step.
  - apply quiz_effects_bind; [apply quiz_effects_review_question|intros _].
    apply IH.
Qed.

Lemma quiz_effects_fetch_all_questions : quiz_effects fetch_all_questions.
Proof. unfold fetch_all_questions. repeat quiz_effects_step. Qed.

Lemma quiz_effects_display_question inp questions :
  quiz_effects (display_question inp questions).
Proof. unfold display_question. repeat quiz_effects_step. Qed.

Lemma quiz_effects_navigation_buttons inp questions :
  quiz_effects (navigation_buttons inp questions).
Proof.
  unfold navigation_buttons.
  repeat first [apply quiz_effects_submit_quiz | quiz_effects_step].
Qed.

(** Every write of a render of the quiz page is one of [quiz_update]. *)
Lemma quiz_effects_take_quiz inp : quiz_effects (take_quiz inp).
Proof.
  unfold take_quiz.
  repeat first
    [ apply quiz_effects_submit_quiz
    | apply quiz_effects_review_answers
    | apply quiz_effects_fetch_all_questions
    | apply quiz_effects_display_question
    | apply quiz_effects_navigation_buttons
    | quiz_effects_step ].
Qed.

Lemma key_str_option_key key : key_str key ∈ option_keys.
Proof. destruct key; cbn; unfold option_keys; repeat constructor. Qed.

Lemma quiz_update_table w w' : quiz_update w w' → table w' = table w.
Proof. by destruct 1. Qed.

Lemma quiz_update_output w w' :
  quiz_update w w' → ui w `prefix_of` ui w' ∧ log w `prefix_of` log w'.
Proof. destruct 1; cbn; split; by first [apply prefix_app_r|idtac]. Qed.

Lemma quiz_update_timer w w' :
  quiz_update w w' →
  (∀ t, start_time (sstate w) = Some t → start_time (sstate w') = Some t)
  ∧ (time_limit (sstate w') = time_limit (sstate w)
     ∨ time_limit (sstate w) = None ∧ time_limit (sstate w') = Some 15).
Proof.
  destruct 1; cbn; split; auto; try congruence.
Qed.

Lemma quiz_update_answers w w' :
  quiz_update w w' →
  (∀ a, answers (sstate w) = Some a →
     ∃ a', answers (sstate w') = Some a' ∧ dom a ⊆ dom a')
  ∧ (answers_valid (sstate w) → answers_valid (sstate w')).
Proof.
  destruct 1 as [| | | | |Hnone|a k key Ha| |]; cbn; split;
    try (intros a0 H0; by exists a0); try done.
  - congruence.
  - intros _ a0 [= <-]. apply map_Forall_empty.
  - intros a0 H0. exists (<[k:=key_str key]> a). split; [done|].
    rewrite dom_insert. assert (a0 = a) as -> by congruence. set_solver.
  - intros Hv a0 [= <-]. apply map_Forall_insert_2; [|by apply Hv].
    apply key_str_option_key.
Qed.

(** X15.  A render of the quiz page never writes the table: whatever the
    inputs and whether it returns or raises, the stored questions are
    afterwards exactly what they were. *)
Theorem take_quiz_read_only (inp : Inputs) (w : World) :
  table (take_quiz inp w).2 = table w.
Proof.
  induction (quiz_effects_take_quiz inp w) as [|w0 w1 w2 H _ IH]; [done|].
  rewrite IH. by apply quiz_update_table.
Qed.

(** X16.  A render of the quiz page only appends to the page and to the
    log: what was shown and logged before is a prefix of what is shown
    and logged after, also when the render raises. *)
Theorem take_quiz_appends_output (inp : Inputs) (w : World) :
  ui w `prefix_of` ui (take_quiz inp w).2
  ∧ log w `prefix_of` log (take_quiz inp w).2.
Proof.
  induction (quiz_effects_take_quiz inp w) as [|w0 w1 w2 H _ IH]; [done|].
  apply quiz_update_output in H as [Hu Hl]. destruct IH as [IHu IHl].
  split; by etrans.
Qed.

(** X17.  The timer is set once.  A start time or a time limit that the
    session already holds is never changed by a render, so reloading the
    page does not restart the clock; and the only limit a render ever
    sets is 15 minutes. *)
Theorem take_quiz_keeps_timer (inp : Inputs) (w : World) :
  (∀ t, start_time (sstate w) = Some t →
        start_time (sstate (take_quiz inp w).2) = Some t)
  ∧ (∀ m, time_limit (sstate w) = Some m →
          time_limit (sstate (take_quiz inp w).2) = Some m)
  ∧ (time_limit (sstate (take_quiz inp w).2) = None
     ∨ time_limit (sstate (take_quiz inp w).2)
       = Some (default 15 (time_limit (sstate w)))).
Proof.
  induction (quiz_effects_take_quiz inp w) as [w0|w0 w1 w2 H _ IH].
  - split_and!; [done..|]. destruct (time_limit (sstate w0)); auto.
  - apply quiz_update_timer in H as [Hs Hl].
    destruct IH as (IHs & IHl & IHd). split_and!.
    + intros t Ht. by apply IHs, Hs.
    + intros m Hm. apply IHl. destruct Hl as [Hl|[Hl _]]; congruence.
    + destruct IHd as [IHd|IHd]; [by left|right]. rewrite IHd.
      destruct Hl as [->|[-> ->]]; done.
Qed.

(** X18.  A render never forgets an answer: every question id that has a
    recorded answer before still has one after; and if all the recorded
    answers are letters among A, B, C and D, they still are. *)
Theorem take_quiz_keeps_answers (inp : Inputs) (w : World) :
  (∀ a, answers (sstate w) = Some a →
     ∃ a', answers (sstate (take_quiz inp w).2) = Some a' ∧ dom a ⊆ dom a')
  ∧ (answers_valid (sstate w) →
     answers_valid (sstate (take_quiz inp w).2)).
Proof.
  induction (quiz_effects_take_quiz inp w) as [w0|w0 w1 w2 H _ IH].
  - split; [|done]. intros a Ha. by exists a.
  - apply quiz_update_answers in H as [Hd Hv]. destruct IH as [IHd IHv].
    split; [|auto].
    intros a Ha. destruct (Hd a Ha) as (a1 & Ha1 & Hsub).
    destruct (IHd a1 Ha1) as (a2 & Ha2 & Hsub2). exists a2.
    split; [done|]. set_solver.
Qed.

Lemma py_index_in_range {A} (l : list A) (i : Z) :
  - Z.of_nat (length l) ≤ i < Z.of_nat (length l) →
  ∃ x, py_index l i = inr x ∧ x ∈ l.
Proof.
  intros Hi. unfold py_index.
  set (j := if i <? 0 then i + Z.of_nat (length l) else i).
  assert (0 ≤ j < Z.of_nat (length l)) as Hj.
  { unfold j. destruct (Z.ltb_spec i 0); lia. }
  rewrite (proj2 (andb_true_iff _ _))
    by (split; [apply Z.leb_le|apply Z.ltb_lt]; lia).
  destruct (l !! Z.to_nat j) as [x|] eqn:Hx.
  - exists x. split; [done|]. by eapply list_elem_of_lookup_2.
  - apply lookup_ge_None in Hx. lia.
Qed.

Lemma py_index_out_of_range {A} (l : list A) (i : Z) :
  i < - Z.of_nat (length l) ∨ Z.of_nat (length l) ≤ i →
  py_index l i = inl IndexError.
Proof.
  intros Hi. unfold py_index.
  set (j := if i <? 0 then i + Z.of_nat (length l) else i).
  assert (j < 0 ∨ Z.of_nat (length l) ≤ j) as Hj.
  { unfold j. destruct (Z.ltb_spec i 0); lia. }
  destruct (Z.leb_spec 0 j), (Z.ltb_spec j (Z.of_nat (length l))); cbn;
    try done.
  lia.
Qed.

Lemma list_index_spec v l :
  match list_index v l with
  | inr i => 0 ≤ i < Z.of_nat (length l) ∧ l !! Z.to_nat i = Some v
  | inl e => e = ValueError ∧ v ∉ l
  end.
Proof.
  induction l as [|x rest IH]; cbn [list_index].
  - split; [done|]. apply not_elem_of_nil.
  - destruct (String.eqb_spec x v) as [->|Hne].
    + cbn. split; [lia|done].
    + destruct (list_index v rest) as [e|i].
      * destruct IH as [-> IH]. split; [done|].
        apply not_elem_of_cons. split; [congruence|done].
      * destruct IH as [Hi Hl]. cbn [length]. split; [lia|].
        replace (Z.to_nat (i + 1)) with (S (Z.to_nat i)) by lia. done.
Qed.

(** X13.  The [index] argument of [st.radio] (line 230).  When the
    question has no recorded answer it is -1; when the recorded answer is
    one of the four keys it is the position of that key, so the radio
    shows the saved choice; any other recorded value makes [list.index]
    raise [ValueError]. *)
Theorem radio_index_preselects_saved (a : gmap Z string) (q : Question) :
  match radio_index a q with
  | inr i =>
      (i = -1 ∧ a !! id q = None)
      ∨ (0 ≤ i < 4 ∧ ∃ v, a !! id q = Some v
                          ∧ option_keys !! Z.to_nat i = Some v)
  | inl e => e = ValueError ∧ ∃ v, a !! id q = Some v ∧ v ∉ option_keys
  end.
Proof.
  unfold radio_index. destruct (a !! id q) as [v|]; [|by left].
  pose proof (list_index_spec v option_keys) as H.
  destruct (list_index v option_keys) as [e|i].
  - destruct H as [-> H]. split; [done|]. by exists v.
  - destruct H as [Hi Hl]. right. split; [exact Hi|]. by exists v.
Qed.

(** X14.  The initialisation of lines 196-203 is idempotent: run again,
    on a later render and with another clock reading, it changes
    nothing. *)
Theorem init_session_state_idempotent (inp inp' : Inputs) (w : World) :
  init_session_state inp' (init_session_state inp w).2
  = (inr tt, (init_session_state inp w).2).
Proof.
  rewrite (init_session_state_run inp w). cbn [snd].
  rewrite init_session_state_run. by destruct w.
Qed.

Lemma getattr_option_raises q name e :
  getattr_option q name = inl e → e = AttributeError.
Proof.
  unfold getattr_option. repeat case_match; congruence.
Qed.

Lemma score_question_raises a q e :
  score_question a q = inl e → e = AttributeError.
Proof.
  unfold score_question, option_text. intros H.
  repeat case_match; simplify_eq;
    by first [eapply getattr_option_raises|idtac].
Qed.

Lemma score_loop_result questions : ∀ score results w,
  match (score_loop questions score results w).1 with
  | inl e => e = AttributeError
  | inr (score', results') =>
      (score ≤ score' ≤ score + length questions)%nat
      ∧ length results' = (length results + length questions)%nat
  end.
Proof.
  induction questions as [|q rest IH]; intros score results w;
    cbn [score_loop].
  - cbn. lia.
  - unfold bind at 1, read_state at 1.
    destruct (answers (sstate w)) as [a|]; [|done].
    unfold bind at 1, lift.
    destruct (score_question a q) as [e|[c row]] eqn:Hq.
    + by apply score_question_raises in Hq.
    + specialize (IH (if c then S score else score) (results ++ [row]) w).
      destruct (score_loop rest _ _ w).1 as [e|[s' rs']]; [done|].
      rewrite length_app in IH. cbn [length] in *. destruct c; lia.
Qed.

Lemma submit_quiz_outcome questions w :
  (∃ score results,
     submit_quiz questions w
     = (inr tt, report_score score results questions w)
     ∧ (score ≤ length questions)%nat
     ∧ length results = length questions)
  ∨ submit_quiz questions w = (inl AttributeError, w).
Proof.
  pose proof (score_loop_result questions 0%nat [] w) as Hres.
  pose proof (score_loop_world questions 0%nat [] w) as Hw.
  destruct (score_loop questions 0 [] w) as [[e|[score results]] w1] eqn:Hloop;
    cbn in Hres, Hw; subst w1.
  - right. subst e. unfold submit_quiz, bind at 1. by rewrite Hloop.
  - left. exists score, results. split_and!; [|lia|lia].
    unfold submit_quiz, bind at 1. rewrite Hloop.
    unfold report_score, bind, st_show, logger, modify.
    destruct w. cbn. by rewrite <- !app_assoc.
Qed.

(** X11.  [submit_quiz] is all or nothing.  Either it returns, having
    shown the header, a score that is at most the number of questions and
    a table with one row per question, and having logged that score; or
    it raises [AttributeError] and has shown and logged nothing at all.
    It raises no other exception and never writes the session state or
    the store. *)
Theorem submit_quiz_all_or_nothing (questions : list Question) (w : World) :
  (∃ score results,
     submit_quiz questions w
     = (inr tt, report_score score results questions w)
     ∧ (score ≤ length questions)%nat
     ∧ length results = length questions)
  ∨ submit_quiz questions w = (inl AttributeError, w).
Proof. apply submit_quiz_outcome. Qed.

Lemma set_ui_app evs1 evs2 w :
  set_ui (ui (set_ui (ui w ++ evs1) w) ++ evs2) (set_ui (ui w ++ evs1) w)
  = set_ui (ui w ++ (evs1 ++ evs2)) w.
Proof. destruct w. cbn. by rewrite app_assoc. Qed.

Lemma review_question_shown idx q w :
  ∃ events,
    shown events w (review_question idx q w).2
    ∧ match (review_question idx q w).1 with
      | inr _ => length events = 6%nat
      | inl e => e = AttributeError ∧ (length events < 6)%nat
      end.
Proof.
  unfold review_question, shown.
  unfold bind, read_state, lift, st_show, modify, ret.
  destruct w as [t p fs ks s u l]. cbn.
  destruct (answers s) as [a|].
  2: { exists [UiSubheader ("Question " +:+ str_of_nat idx +:+ ": "
                           +:+ question_text q)].
       cbn. split_and!; [done..|lia]. }
  destruct (negb _).
  - destruct (option_text q (default no_answer (a !! id q))) as [e|t1] eqn:H1.
    { eexists [_]. cbn. split_and!; [done| |lia].
      by eapply getattr_option_raises. }
    cbn. destruct (option_text q (correct_option q)) as [e|t2] eqn:H2.
    { eexists [_; _]. cbn. rewrite <- !app_assoc. split_and!; [done| |lia].
      by eapply getattr_option_raises. }
    cbn. eexists [_; _; _; _; _; _]. cbn. rewrite <- !app_assoc. done.
  - cbn. destruct (option_text q (correct_option q)) as [e|t2] eqn:H2.
    { eexists [_; _]. cbn. rewrite <- !app_assoc. split_and!; [done| |lia].
      by eapply getattr_option_raises. }
    cbn. eexists [_; _; _; _; _; _]. cbn. rewrite <- !app_assoc. done.
Qed.

Lemma review_loop_shown questions : ∀ idx w,
  ∃ events,
    shown events w (review_loop idx questions w).2
    ∧ match (review_loop idx questions w).1 with
      | inr _ => length events = (6 * length questions)%nat
      | inl e => e = AttributeError
                 ∧ (length events < 6 * length questions)%nat
      end.
Proof.
  induction questions as [|q rest IH]; intros idx w; cbn [review_loop].
  - exists []. unfold shown. cbn. rewrite app_nil_r. by destruct w.
  - destruct (review_question_shown idx q w) as (ev1 & Hw1 & Hr1).
    destruct (review_question idx q w) as [[e|[]] w1] eqn:Hrq;
      cbn in Hw1, Hr1; unfold bind; rewrite Hrq.
    + exists ev1. cbn [fst snd length]. split; [done|]. split; [tauto|lia].
    + destruct (IH (S idx) w1) as (ev2 & Hw2 & Hr2).
      exists (ev1 ++ ev2). split.
      * unfold shown in *. rewrite Hw2, Hw1. apply set_ui_app.
      * rewrite length_app. cbn [length].
        destruct (review_loop (S idx) rest w1).1; [split; [tauto|lia]|lia].
Qed.

(** X12.  [review_answers] only renders: the world after it is the world
    before with some events appended to the page, the store, the session
    state and the log being untouched.  When it returns it has shown the
    header and six events per question; the only exception it raises is
    [AttributeError], and then what it had rendered before the failing
    lookup (at least the header, never the whole review) stays on the
    page. *)
Theorem review_answers_shows_only (questions : list Question) (w : World) :
  ∃ events,
    (review_answers questions w).2 = set_ui (ui w ++ events) w
    ∧ match (review_answers questions w).1 with
      | inr _ => length events = (1 + 6 * length questions)%nat
      | inl e => e = AttributeError
                 ∧ (0 < length events < 1 + 6 * length questions)%nat
      end.
Proof.
  set (w0 := set_ui (ui w ++ [UiHeader "Review Your Answers"]) w).
  assert (review_answers questions w = review_loop 1 questions w0) as ->
    by done.
  destruct (review_loop_shown questions 1%nat w0) as (events & Hw & Hr).
  exists (UiHeader "Review Your Answers" :: events). split.
  - rewrite Hw. unfold w0. apply (set_ui_app [_] events w).
  - cbn [length]. destruct (review_loop 1 questions w0).1.
    + destruct Hr. split; [done|lia].
    + lia.
Qed.

Lemma list_index_option_key v :
  v ∈ option_keys → ∃ i, list_index v option_keys = inr i.
Proof.
  unfold option_keys. rewrite !elem_of_cons, elem_of_nil.
  intros [->|[->|[->|[->|[]]]]]; by eexists.
Qed.

Lemma submit_quiz_total questions a w :
  answers (sstate w) = Some a →
  Forall (λ q, correct_option q ∈ option_keys) questions →
  map_Forall (λ _ v, v ∈ option_keys) a →
  ∃ w', submit_quiz questions w = (inr tt, w') ∧ sstate w' = sstate w.
Proof.
  intros Ha Hq Hv. rewrite (submit_quiz_run _ _ _ Ha).
  destruct (score_fold_total a questions 0%nat [] Hq Hv)
    as (score & results & ->).
  by eexists.
Qed.

Lemma radio_index_saved a q v :
  a !! id q = Some v → v ∈ option_keys →
  ∃ j, radio_index a q = inr j ∧ 0 ≤ j < 4.
Proof.
  intros Hv Hin. unfold radio_index. rewrite Hv.
  unfold option_keys in *. rewrite !elem_of_cons, elem_of_nil in Hin.
  destruct Hin as [->|[->|[->|[->|[]]]]]; eexists; (split; [reflexivity|lia]).
Qed.

Lemma display_question_total inp questions w i a q v :
  current_question (sstate w) = Some i →
  answers (sstate w) = Some a →
  py_index questions i = inr q →
  a !! id q = Some v →
  map_Forall (λ _ v, v ∈ option_keys) a →
  ∃ w' a', display_question inp questions w = (inr tt, w')
           ∧ current_question (sstate w') = Some i
           ∧ answers (sstate w') = Some a'
           ∧ map_Forall (λ _ v, v ∈ option_keys) a'.
Proof.
  intros Hcur Ha Hq Hsaved Hv.
  destruct (radio_index_saved a q v Hsaved (Hv _ _ Hsaved))
    as (j & Hj & Hj0 & Hj4).
  unfold display_question, st_radio.
  unfold bind, read_state, lift, st_show, modify_state, modify.
  rewrite Hcur, Hq. simpl_world. rewrite Ha, Hj.
  rewrite (proj2 (Z.leb_le 0 j)) by done.
  change (Z.of_nat (length option_keys)) with 4.
  rewrite (proj2 (Z.ltb_lt j 4)) by done. cbn [andb ret].
  destruct (radio inp) as [key|]; simpl_world; rewrite ?Ha.
  - eexists _, _. split_and!; [reflexivity|done..|].
    apply map_Forall_insert_2; [|done].
    apply key_str_option_key.
  - eexists _, _. split_and!; [reflexivity|done..].
Qed.

Lemma navigation_buttons_total inp questions w i a :
  current_question (sstate w) = Some i →
  answers (sstate w) = Some a →
  Forall (λ q, correct_option q ∈ option_keys) questions →
  map_Forall (λ _ v, v ∈ option_keys) a →
  ∃ w', navigation_buttons inp questions w = (inr tt, w')
        ∧ answers (sstate w') = Some a.
Proof.
  intros Hcur Ha Hq Hv. unfold navigation_buttons.
  unfold bind at 1, read_state at 1. rewrite Hcur.
  set (w1 := (if btn_previous inp && (i >? 0)
              then set_sstate (set_current_question (i - 1) (sstate w)) w
              else w)).
  assert (Hw1 : (if btn_previous inp && (i >? 0)
                 then modify_state (set_current_question (i - 1))
                 else ret tt) w = (inr tt, w1)).
  { unfold w1. by destruct (_ && _). }
  erewrite bind_run by exact Hw1.
  assert (Ha1 : answers (sstate w1) = Some a).
  { unfold w1. by destruct (_ && _). }
  assert (∃ i1, current_question (sstate w1) = Some i1) as [i1 Hcur1].
  { unfold w1. destruct (_ && _); by eexists. }
  clearbody w1.
  set (w2 := if btn_save inp
             then set_log (log w1 ++ [LogSavedProgress])
                    (set_ui (ui w1 ++ [UiSuccess "Your progress has been saved."]) w1)
             else w1).
  assert (Hw2 : (if btn_save inp
                 then st_show (UiSuccess "Your progress has been saved.") >>;
                      logger LogSavedProgress
                 else ret tt) w1 = (inr tt, w2)).
  { unfold w2. by destruct (btn_save inp). }
  erewrite bind_run by exact Hw2.
  assert (Ha2 : answers (sstate w2) = Some a).
  { unfold w2. by destruct (btn_save inp). }
  assert (Hcur2 : current_question (sstate w2) = Some i1).
  { unfold w2. by destruct (btn_save inp). }
  clearbody w2.
  unfold bind at 1, read_state at 1. rewrite Hcur2.
  destruct (btn_next inp && _).
  { eexists. split; [reflexivity|]. by simpl_world. }
  destruct (btn_submit inp && _); [|by eexists].
  destruct (submit_quiz_total questions a w2 Ha2 Hq Hv) as (w' & -> & Hs).
  exists w'. by rewrite Hs.
Qed.

Lemma review_answers_total questions a w :
  answers (sstate w) = Some a →
  Forall (λ q, correct_option q ∈ option_keys) questions →
  map_Forall (λ _ v, v ∈ option_keys) a →
  ∃ w', review_answers questions w = (inr tt, w').
Proof.
  intros Ha Hq Hv. unfold review_answers, bind at 1, st_show, modify.
  destruct (review_loop_total questions a 1%nat
              (set_ui (ui w ++ [UiHeader "Review Your Answers"]) w) Ha Hq Hv)
    as (w' & -> & _). by eexists.
Qed.

Lemma take_quiz_returns inp w :
  Forall (λ q, correct_option q ∈ option_keys) (table w) →
  answers_valid (sstate w) →
  (∀ i, current_question (sstate w) = Some i →
        - Z.of_nat (length (table w)) ≤ i) →
  shown_question_answered w →
  (take_quiz inp w).1 = inr tt.
Proof.
  intros Htable Hvalid Hindex Hanswered.
  destruct (fetch_all_questions_spec (set_pending [] w))
    as (questions & w1 & Hfetch & Hs1 & _ & Hquestions).
  rewrite (take_quiz_run inp w questions w1 Hfetch).
  change (sstate (set_pending [] w)) with (sstate w) in Hs1.
  change (table (set_pending [] w)) with (table w) in Hquestions.
  destruct questions as [|q0 rest] eqn:Hqs; [done|]. rewrite <- Hqs in *.
  assert (questions = table w) as Hq by (destruct Hquestions; congruence).
  clear Hquestions. unfold shown_question_answered in Hanswered.
  rewrite <- Hq in *.
  set (a := default ∅ (answers (sstate w))).
  assert (Ha : map_Forall (λ _ v, v ∈ option_keys) a).
  { unfold a. destruct (answers (sstate w)) as [a0|] eqn:Ha0; cbn.
    - by apply Hvalid.
    - apply map_Forall_empty. }
  rewrite Hs1.
  destruct (remaining inp (sstate w) <=? 0).
  { destruct (submit_quiz_total questions a
                (time_up_world inp questions w1)) as (w' & -> & _); try done.
    unfold time_up_world, initialized. simpl_world. unfold a. congruence. }
  set (w2 := set_ui _ _).
  assert (Ha2 : answers (sstate w2) = Some a).
  { unfold w2, initialized. simpl_world. unfold a. congruence. }
  assert (Hc2 : current_question (sstate w2)
                = Some (default 0 (current_question (sstate w)))).
  { unfold w2, initialized. simpl_world. congruence. }
  set (i := default 0 (current_question (sstate w))) in *.
  assert (Hi : - Z.of_nat (length questions) ≤ i).
  { unfold i. destruct (current_question (sstate w)) as [i0|] eqn:Hi0; cbn.
    - by apply Hindex.
    - lia. }
  assert (∃ w3 a3, (if i <? Z.of_nat (length questions)
           then bind (display_question inp questions)
                  (λ _, navigation_buttons inp questions)
           else bind (st_show (UiSuccess "You have completed the quiz!"))
                  (λ _, submit_quiz questions)) w2 = (inr tt, w3)
          ∧ answers (sstate w3) = Some a3
          ∧ map_Forall (λ _ v, v ∈ option_keys) a3)
    as (w3 & a3 & Hrun & Ha3 & Hv3).
  { destruct (Z.ltb_spec i (Z.of_nat (length questions))).
    - destruct (py_index_in_range questions i) as (q & Hqi & _); [lia|].
      destruct (Hanswered q Hqi) as (a0 & Ha0 & [v Hv]).
      assert (a = a0) as <- by (unfold a; by rewrite Ha0).
      destruct (display_question_total inp questions w2 i a q v)
        as (wd & ad & Hd & Hcd & Had & Hvd); try done.
      erewrite bind_run by exact Hd.
      destruct (navigation_buttons_total inp questions wd i ad)
        as (wn & Hn & Han); try done.
      by exists wn, ad.
    - unfold bind at 1, st_show, modify.
      destruct (submit_quiz_total questions a
                  (set_ui (ui w2 ++ [UiSuccess "You have completed the quiz!"]) w2))
        as (w' & Hsub & Hs'); try done.
      exists w', a. by rewrite Hsub, Hs'. }
  erewrite bind_run by exact Hrun.
  destruct (chk_review inp); [|done].
  by destruct (review_answers_total questions a3 w3) as (w' & -> ).
Qed.

(** X19.  A render of the quiz page does not raise when the store and
    the session are well formed and the question to display has a
    recorded answer: every stored row satisfies the check constraint,
    every recorded answer is one of the four letters, the index, when
    set, is not below minus the number of rows (the range of Python's
    indexing), and the question at the index, if there is one, has an
    entry in the answers.  This holds for every button, every clock
    reading and every backend fault. *)
Theorem take_quiz_never_raises (inp : Inputs) (w : World) :
  Forall (λ q, correct_option q ∈ option_keys) (table w) →
  answers_valid (sstate w) →
  (∀ i, current_question (sstate w) = Some i →
        - Z.of_nat (length (table w)) ≤ i) →
  shown_question_answered w →
  (take_quiz inp w).1 = inr tt.
Proof. apply take_quiz_returns. Qed.

(** X26.  A question without a recorded answer cannot be displayed.  On
    a render that fetched at least one question, with time left, when
    the question at the index has no entry in the answers, line 230
    passes index -1 to [st.radio], which refuses it: [take_quiz] raises
    [StreamlitAPIException] after the header and the text of the
    question, before any answer is recorded or any button is looked at.
    The first render of a new session is such a render. *)
Theorem take_quiz_unanswered_raises (inp : Inputs) (w : World)
    (questions : list Question) (w1 : World) (q : Question) :
  fetch_all_questions (set_pending [] w) = (inr questions, w1) →
  ¬ time_is_up inp (sstate w) →
  py_index questions (default 0 (current_question (sstate w))) = inr q →
  default ∅ (answers (sstate w)) !! id q = None →
  take_quiz inp w
  = (inl StreamlitAPIException,
     set_ui (ui w1
             ++ [UiSidebarRemaining (remaining inp (sstate w));
                 UiHeader ("Question "
                           +:+ str_of_Z
                                 (default 0 (current_question (sstate w)) + 1)
                           +:+ " of " +:+ str_of_nat (length questions));
                 UiWrite (question_text q)])
       (set_sstate (initialized inp (sstate w)) w1)).
Proof.
  intros Hfetch Hup Hq Hna.
  destruct (fetch_all_questions_spec (set_pending [] w))
    as (qs & w1' & Hfetch' & Hs1 & _).
  rewrite Hfetch in Hfetch'. injection Hfetch' as <- <-.
  change (sstate (set_pending [] w)) with (sstate w) in Hs1.
  rewrite (take_quiz_run inp w questions w1 Hfetch).
  set (i := default 0 (current_question (sstate w))) in *.
  assert (Hi : i < Z.of_nat (length questions)).
  { destruct (Z.lt_ge_cases i (Z.of_nat (length questions))) as [|Hge];
      [done|].
    rewrite py_index_out_of_range in Hq by lia. done. }
  destruct questions as [|q0 rest] eqn:Hqs.
  { unfold py_index in Hq. cbn in Hq. by repeat case_match. }
  rewrite <- Hqs in *. rewrite Hs1.
  destruct (Z.leb_spec (remaining inp (sstate w)) 0) as [Hle|_].
  { by apply time_is_up_remaining in Hle. }
  fold i. rewrite (proj2 (Z.ltb_lt i (Z.of_nat (length questions)))) by lia.
  unfold bind at 1, bind at 1, display_question, bind at 1, read_state at 1.
  simpl_world. unfold initialized at 1. simpl_world. fold i.
  unfold bind at 1, lift at 1. rewrite Hq.
  unfold bind, st_show, modify, read_state, lift, st_radio, raise.
  simpl_world. unfold initialized at 1. simpl_world.
  unfold radio_index. rewrite Hna. cbn.
  destruct w1. cbn. by rewrite <- !app_assoc.
Qed.

(** X20.  Next then Previous.  From an index [i] with [0 <= i < N - 1],
    the buttons of a render where Next is pressed lead to [i + 1], and
    those of a following render where Previous is pressed lead back to
    [i]. *)
Theorem next_then_previous_returns (inp1 inp2 : Inputs)
    (questions : list Question) (w : World) (i : Z)
    (r1 r2 : exn + unit) (w1 w2 : World) :
  current_question (sstate w) = Some i →
  0 ≤ i < Z.of_nat (length questions) - 1 →
  btn_previous inp1 = false → btn_next inp1 = true →
  btn_previous inp2 = true → btn_next inp2 = false →
  navigation_buttons inp1 questions w = (r1, w1) →
  navigation_buttons inp2 questions w1 = (r2, w2) →
  current_question (sstate w1) = Some (i + 1)
  ∧ current_question (sstate w2) = Some i.
Proof.
  intros Hcur Hi Hp1 Hn1 Hp2 Hn2 Hrun1 Hrun2.
  destruct (navigation_buttons_spec _ _ _ _ _ _ Hrun1 Hcur) as [Hc1 _].
  destruct (navigation_buttons_spec _ _ _ _ _ _ Hrun2 Hc1) as [Hc2 _].
  unfold navigate in Hc1, Hc2. rewrite Hp1, Hn1 in Hc1.
  rewrite Hp1, Hn1, Hp2, Hn2 in Hc2. cbn [andb] in *.
  rewrite (proj2 (Z.ltb_lt _ _)) in Hc1, Hc2 by lia.
  rewrite (proj2 (Z.gtb_gt _ _)) in Hc2 by lia.
  split; [done|]. rewrite Hc2. f_equal. lia.
Qed.

(** X21.  Previous then Next.  From an index [i] with [0 < i < N], the
    buttons of a render where Previous is pressed lead to [i - 1], and
    those of a following render where Next is pressed lead back to
    [i]. *)
Theorem previous_then_next_returns (inp1 inp2 : Inputs)
    (questions : list Question) (w : World) (i : Z)
    (r1 r2 : exn + unit) (w1 w2 : World) :
  current_question (sstate w) = Some i →
  0 < i < Z.of_nat (length questions) →
  btn_previous inp1 = true → btn_next inp1 = false →
  btn_previous inp2 = false → btn_next inp2 = true →
  navigation_buttons inp1 questions w = (r1, w1) →
  navigation_buttons inp2 questions w1 = (r2, w2) →
  current_question (sstate w1) = Some (i - 1)
  ∧ current_question (sstate w2) = Some i.
Proof.
  intros Hcur Hi Hp1 Hn1 Hp2 Hn2 Hrun1 Hrun2.
  destruct (navigation_buttons_spec _ _ _ _ _ _ Hrun1 Hcur) as [Hc1 _].
  destruct (navigation_buttons_spec _ _ _ _ _ _ Hrun2 Hc1) as [Hc2 _].
  unfold navigate in Hc1, Hc2. rewrite Hp1, Hn1 in Hc1.
  rewrite Hp1, Hn1, Hp2, Hn2 in Hc2. cbn [andb] in *.
  rewrite (proj2 (Z.gtb_gt _ _)) in Hc1, Hc2 by lia.
  rewrite (proj2 (Z.ltb_lt _ _)) in Hc2 by lia.
  split; [done|]. rewrite Hc2. f_equal. lia.
Qed.

(** X22.  No questions.  When the table is empty or the query of the
    render fails, the quiz page returns after the notice "No questions
    available. Please contact the administrator.", which is the last
    thing shown; the session state is not initialised or changed and
    nothing is scored. *)
Theorem take_quiz_without_questions (inp : Inputs) (w : World) :
  table w = [] ∨ head (faults w) = Some true →
  ∃ w', take_quiz inp w = (inr tt, w')
        ∧ sstate w' = sstate w
        ∧ last (ui w') = Some no_questions_warning
        ∧ count_log is_submitted (log w') = count_log is_submitted (log w).
Proof.
  intros Hempty.
  destruct (fetch_all_questions_spec (set_pending [] w))
    as (questions & w1 & Hfetch & Hs1 & Hlog & Hquestions).
  assert (questions = []) as ->.
  { destruct Hempty as [Ht|Hf].
    - destruct Hquestions as [->| ->]; done.
    - revert Hfetch. unfold fetch_all_questions, backend_fails. run_monad.
      cbn. destruct (faults w) as [|[] ?]; cbn; [done| |done].
      by intros [= <- _]. }
  rewrite (take_quiz_run inp w [] w1 Hfetch). eexists. split; [reflexivity|].
  simpl_world. split_and!; [done| |done].
  by rewrite last_snoc.
Qed.

(** X23.  A completed quiz stays completed.  On a render that fetched
    at least one question, with the index at or past their number and
    time left, no question and no button is rendered: the index and the
    recorded answers are unchanged, and when the render returns it has
    scored again, logging one more submission. *)
Theorem completed_quiz_stays_completed (inp : Inputs) (w : World)
    (questions : list Question) (w1 : World) (i : Z)
    (r : exn + unit) (w' : World) :
  fetch_all_questions (set_pending [] w) = (inr questions, w1) →
  questions ≠ [] →
  current_question (sstate w) = Some i →
  Z.of_nat (length questions) ≤ i →
  ¬ time_is_up inp (sstate w) →
  take_quiz inp w = (r, w') →
  current_question (sstate w') = Some i
  ∧ answers (sstate w') = Some (default ∅ (answers (sstate w)))
  ∧ (r = inr tt →
     ∃ score, log w' = log w1 ++ [LogSubmitted score (length questions)]).
Proof.
  intros Hfetch Hne Hcur Hi Hup.
  destruct (fetch_all_questions_spec (set_pending [] w))
    as (qs & w1' & Hfetch' & Hs1 & _).
  rewrite Hfetch in Hfetch'. injection Hfetch' as <- <-.
  change (sstate (set_pending [] w)) with (sstate w) in Hs1.
  rewrite (take_quiz_run inp w questions w1 Hfetch).
  destruct questions as [|q0 rest] eqn:Hqs; [done|]. rewrite <- Hqs in *.
  rewrite Hs1.
  destruct (Z.leb_spec (remaining inp (sstate w)) 0) as [Hle|_].
  { by apply time_is_up_remaining in Hle. }
  rewrite Hcur. cbn [default from_option Datatypes.id].
  rewrite (proj2 (Z.ltb_ge i (Z.of_nat (length questions)))) by lia.
  set (w0 := set_ui _ (set_sstate _ w1)).
  set (w2 := set_ui (ui w0 ++ [UiSuccess "You have completed the quiz!"]) w0).
  assert (Hinner :
    bind (st_show (UiSuccess "You have completed the quiz!"))
      (λ _, submit_quiz questions) w0 = submit_quiz questions w2) by done.
  assert (Hs2 : sstate w2 = initialized inp (sstate w)) by done.
  assert (Hl2 : log w2 = log w1) by done.
  clearbody w2. unfold bind at 1. rewrite Hinner.
  destruct (submit_quiz_outcome questions w2)
    as [(score & results & Hsub & _)| Hsub]; rewrite Hsub.
  - set (w3 := report_score score results questions w2).
    assert (Hs3 : sstate w3 = sstate w2) by done.
    assert (Hl3 : log w3 = log w1 ++ [LogSubmitted score (length questions)]).
    { unfold w3, report_score. simpl_world. by rewrite Hl2. }
    clearbody w3. destruct (chk_review inp).
    + intros Hrev. apply review_answers_unchanged in Hrev as [Hs Hl].
      rewrite Hs, Hs3, Hs2, Hl, Hl3. unfold initialized. simpl_world.
      rewrite Hcur. split_and!; [done..|]. intros _. by exists score.
    + intros [= <- <-]. rewrite Hs3, Hs2, Hl3. unfold initialized.
      simpl_world. rewrite Hcur. split_and!; [done..|]. intros _.
      by exists score.
  - intros [= <- <-]. rewrite Hs2. unfold initialized. simpl_world.
    rewrite Hcur. split_and!; [done..|]. intros [=].
Qed.

(** X24.  An index below minus the number of questions is outside the
    range of Python's indexing.  On a render that fetched at least one
    question, with time left, [questions[current_question]] (line 220)
    then raises [IndexError] out of [take_quiz]: the session keys have
    been initialised and the remaining time shown, nothing else. *)
Theorem take_quiz_index_error (inp : Inputs) (w : World)
    (questions : list Question) (w1 : World) (i : Z) :
  fetch_all_questions (set_pending [] w) = (inr questions, w1) →
  questions ≠ [] →
  current_question (sstate w) = Some i →
  i < - Z.of_nat (length questions) →
  ¬ time_is_up inp (sstate w) →
  take_quiz inp w
  = (inl IndexError,
     set_ui (ui w1 ++ [UiSidebarRemaining (remaining inp (sstate w))])
       (set_sstate (initialized inp (sstate w)) w1)).
Proof.
  intros Hfetch Hne Hcur Hi Hup.
  destruct (fetch_all_questions_spec (set_pending [] w))
    as (qs & w1' & Hfetch' & Hs1 & _).
  rewrite Hfetch in Hfetch'. injection Hfetch' as <- <-.
  change (sstate (set_pending [] w)) with (sstate w) in Hs1.
  rewrite (take_quiz_run inp w questions w1 Hfetch).
  destruct questions as [|q0 rest] eqn:Hqs; [done|]. rewrite <- Hqs in *.
  rewrite Hs1.
  destruct (Z.leb_spec (remaining inp (sstate w)) 0) as [Hle|_].
  { by apply time_is_up_remaining in Hle. }
  rewrite Hcur. cbn [default from_option Datatypes.id].
  rewrite (proj2 (Z.ltb_lt i (Z.of_nat (length questions)))) by lia.
  unfold bind at 1, bind at 1, display_question, bind at 1, read_state at 1.
  simpl_world. unfold initialized at 1. simpl_world. rewrite Hcur.
  cbn [default from_option Datatypes.id]. unfold bind at 1, lift at 1.
  rewrite (py_index_out_of_range questions i) by lia. done.
Qed.

(** ** The admin page, then the quiz page *)

Lemma py_index_app {A} (l rows : list A) (i : Z) :
  0 ≤ i < Z.of_nat (length l) →
  py_index (l ++ rows) i = py_index l i.
Proof.
  intros Hi. unfold py_index. rewrite length_app, Nat2Z.inj_add.
  rewrite (proj2 (Z.ltb_ge i 0)) by lia.
  rewrite !(proj2 (Z.leb_le 0 i)) by lia.
  rewrite !(proj2 (Z.ltb_lt i _)) by lia. cbn [andb].
  rewrite lookup_app_l by lia. done.
Qed.

Section AdminThenQuiz.
Variable class_attribute : string -> bool.
Variable adapt_text : pyval -> option string.
Variable adapt_int : pyval -> option Z.
Variable utf8_decode : string -> exn + string.
Variable json_loads : string -> exn + pyval.

Local Abbreviation admin_add_questions :=
  (admin_add_questions class_attribute adapt_text adapt_int utf8_decode
     json_loads).

(** X25.  The admin page does not disturb a quiz in progress.  From a
    store whose rows satisfy the check constraint and a session whose
    answers are letters, whose index points into the table and whose
    question at that index has a recorded answer, after any run of the
    admin page, with any form values or uploaded file, a render of the
    quiz page does not raise: the page only appended rows, which satisfy
    the check constraint, so the index points at the same question, and
    the session state was not touched. *)
Theorem quiz_after_admin_never_raises (f : FormInputs) (inp : Inputs)
    (w : World) :
  Forall (λ q, correct_option q ∈ option_keys) (table w) →
  answers_valid (sstate w) →
  0 ≤ default 0 (current_question (sstate w)) < Z.of_nat (length (table w)) →
  shown_question_answered w →
  (take_quiz inp (admin_add_questions f w).2).1 = inr tt.
Proof.
  intros Htable Hvalid Hindex Hanswered.
  destruct (admin_add_questions_run class_attribute adapt_text adapt_int
              utf8_decode json_loads f w)
    as (w' & -> & (rows & Ht & Hrows & _) & _ & Hs).
  cbn [snd]. apply take_quiz_returns.
  - rewrite Ht. by apply Forall_app.
  - by rewrite Hs.
  - rewrite Hs. intros i Hi. rewrite Hi in Hindex. cbn in Hindex. lia.
  - unfold shown_question_answered in *. rewrite Hs, Ht.
    intros q. rewrite py_index_app by done. apply Hanswered.
Qed.
End AdminThenQuiz.

(** ** Instances *)

(** A record asking for option E is refused and the three stored questions stay. *)
Lemma add_question_rejects_bad_option_witness :
  ∃ w', add_question sample_class_attribute no_adapt_text no_adapt_int bad_option_record admin_world
        = (inr false, w')
        ∧ table w' = sample_questions
        ∧ length (table w') = 3%nat
        ∧ pending w' = [].
Proof.
  destruct (add_question_rejects_bad_option sample_class_attribute
              no_adapt_text no_adapt_int bad_option_record admin_world)
    as [Hrefused _].
  apply Hrefused. vm_compute. reflexivity.
Defined.

(** C2 as stated fails on a record whose correct option is the letter A
    followed by a space, which is not one of A, B, C, D: the column
    keeps the letter, the check constraint is met, and the record
    becomes the fourth row. *)
Lemma padded_option_is_stored :
  add_question sample_class_attribute no_adapt_text no_adapt_int
    padded_option_record admin_world
  = (inr true,
     mkWorld
       (sample_questions
        ++ [mkQuestion 4 "1 + 1 = ?" "2" "1" "3" "4" "A" (Some "Count.")])
       [] [] [5; 6; 7] empty_state [] [LogAdded 4])
  ∧ bool_decide ("A " ∈ option_keys) = false
  ∧ valid_correct_option padded_option_record = false
  ∧ length sample_questions = 3%nat.
Proof. vm_compute. auto. Qed.

(** An upload of two records, one without its explanation. *)
Lemma bulk_import_partial_success_witness :
  ∃ entries w',
    bulk_entry sample_class_attribute no_adapt_text no_adapt_int sample_utf8_decode sample_json_loads
      (upload payload_one_of_two) admin_world = (inr tt, w')
    ∧ log w' = log admin_world ++ LogParsed 2 :: entries
    ∧ count_log is_attempt entries = 1%nat
    ∧ count_log is_skip entries = 1%nat
    ∧ (count_log is_success entries ≤ 1)%nat
    ∧ ui w' = ui admin_world ++ [added_message (count_log is_success entries)].
Proof.
  destruct (bulk_import_partial_success sample_class_attribute
              no_adapt_text no_adapt_int
              sample_utf8_decode sample_json_loads (upload payload_one_of_two)
              payload_one_of_two payload_one_of_two
              [sample_record; incomplete_record] admin_world)
    as [Hbatch _].
  - reflexivity.
  - reflexivity.
  - vm_compute. reflexivity.
  - apply Hbatch. repeat constructor.
Defined.

(** C5 as stated fails on an upload whose first record is a number: the
    field test raises [TypeError], the batch stops there with the message of
    line 375, and the complete record that follows is never attempted
    (M - K = 1, no insert attempt, nothing skipped). *)
Lemma bulk_aborts_on_number :
  bulk_entry sample_class_attribute no_adapt_text no_adapt_int sample_utf8_decode sample_json_loads
    (upload payload_number_first) admin_world
  = (inr tt,
     mkWorld sample_questions [] [] sample_keys empty_state
       [UiError "Failed to process the uploaded file."]
       [LogParsed 2; LogUploadError TypeError])
  ∧ sample_json_loads payload_number_first
    = inr (PList [PInt 5; sample_record])
  ∧ validateRecord sample_record = true
  ∧ (length [PInt 5; sample_record]
     - invalid_records [PInt 5; sample_record] = 1)%nat.
Proof. vm_compute. auto. Qed.

(** The same upload, seen from the page. *)
Lemma bulk_upload_report_witness :
  ∃ entries w',
    admin_add_questions sample_class_attribute no_adapt_text no_adapt_int
      sample_utf8_decode sample_json_loads (upload payload_one_of_two)
      admin_world = (inr tt, w')
    ∧ log w' = log admin_world ++ LogParsed 2 :: entries
    ∧ ui w' = ui admin_world
              ++ [UiHeader "Admin Panel: Add New Questions";
                  added_message (count_log is_success entries)]
    ∧ (length (table admin_world) + count_log is_success entries
       ≤ length (table w'))%nat
    ∧ (faults admin_world = [] →
       length (table w')
       = (length (table admin_world) + count_log is_success entries)%nat).
Proof.
  apply (bulk_upload_report sample_class_attribute no_adapt_text no_adapt_int
           sample_utf8_decode sample_json_loads (upload payload_one_of_two)
           payload_one_of_two payload_one_of_two
           [sample_record; incomplete_record] admin_world).
  - reflexivity.
  - reflexivity.
  - reflexivity.
  - vm_compute. reflexivity.
  - repeat constructor.
  - discriminate.
Defined.

(** C7 as stated fails: uploads of two records and of one record, each with
    one insertion, show the same message, which holds no total. *)
Lemma report_omits_submitted_total :
  ui (admin_add_questions sample_class_attribute no_adapt_text no_adapt_int sample_utf8_decode
        sample_json_loads (upload payload_one_of_two) admin_world).2
  = [UiHeader "Admin Panel: Add New Questions";
     UiSuccess "Successfully added 1 questions."]
  ∧ ui (admin_add_questions sample_class_attribute no_adapt_text no_adapt_int sample_utf8_decode
          sample_json_loads (upload payload_one) admin_world).2
    = [UiHeader "Admin Panel: Add New Questions";
       UiSuccess "Successfully added 1 questions."]
  ∧ sample_json_loads payload_one_of_two
    = inr (PList [sample_record; incomplete_record])
  ∧ sample_json_loads payload_one = inr (PList [sample_record]).
Proof. vm_compute. auto. Qed.

(** An upload that is not valid JSON. *)
Lemma parse_failure_returns_empty_witness :
  (∃ w1, parse_json_questions sample_json_loads payload_malformed admin_world
         = (inr [], w1)
         ∧ (sample_json_loads payload_malformed = inl JSONDecodeError →
            ui w1 = ui admin_world ++ [UiError "Invalid JSON format."])
         ∧ ∀ empty_data, sample_json_loads empty_data = inr (PList []) →
             (parse_json_questions sample_json_loads empty_data admin_world).1
             = (parse_json_questions sample_json_loads payload_malformed
                  admin_world).1)
  ∧ ∃ w', bulk_entry sample_class_attribute no_adapt_text no_adapt_int sample_utf8_decode
            sample_json_loads (upload payload_malformed) admin_world
          = (inr tt, w')
          ∧ table w' = table admin_world
          ∧ count_log is_attempt (log w') = count_log is_attempt (log admin_world)
          ∧ (sample_json_loads payload_malformed = inl JSONDecodeError →
             ui w' = ui admin_world ++ [UiError "Invalid JSON format."]).
Proof.
  apply (parse_failure_returns_empty sample_class_attribute no_adapt_text no_adapt_int
           sample_utf8_decode sample_json_loads (upload payload_malformed)
           payload_malformed payload_malformed admin_world).
  - reflexivity.
  - reflexivity.
  - left. vm_compute. reflexivity.
Defined.

(** C6 as stated fails on an upload whose top level is an object: the page
    shows nothing at all, and the parse returns what it returns for an empty
    list. *)
Lemma non_list_upload_shows_nothing :
  bulk_entry sample_class_attribute no_adapt_text no_adapt_int sample_utf8_decode sample_json_loads
    (upload payload_object) admin_world
  = (inr tt,
     mkWorld sample_questions [] [] sample_keys empty_state [] [LogNotAList])
  ∧ sample_json_loads payload_object = inr (PDict ∅)
  ∧ (parse_json_questions sample_json_loads payload_object admin_world).1
    = inr []
  ∧ (parse_json_questions sample_json_loads payload_empty_list admin_world).1
    = inr [].
Proof. vm_compute. auto. Qed.

(** An upload holding the empty list. *)
Lemma empty_list_reports_nothing_witness :
  bulk_entry sample_class_attribute no_adapt_text no_adapt_int sample_utf8_decode sample_json_loads
    (upload payload_empty_list) admin_world
  = (inr tt, set_log (log admin_world ++ [LogParsed 0]) admin_world).
Proof.
  apply (empty_list_reports_nothing sample_class_attribute no_adapt_text no_adapt_int
           sample_utf8_decode sample_json_loads (upload payload_empty_list)
           payload_empty_list payload_empty_list admin_world);
    [reflexivity | reflexivity | vm_compute; reflexivity].
Defined.

(** The sample form with option C left empty, then filled. *)
Lemma single_entry_validation_witness :
  single_entry sample_class_attribute no_adapt_text no_adapt_int (sample_form "") admin_world
  = (inr tt,
     set_ui (ui admin_world ++ [UiSubheader "Add a New Question";
                                UiError "Please fill in all fields."])
       admin_world)
  ∧ ∃ success w1,
      add_question sample_class_attribute no_adapt_text no_adapt_int
        (form_question_data (sample_form "3"))
        (set_ui (ui admin_world ++ [UiSubheader "Add a New Question"])
           admin_world)
      = (inr success, w1)
      ∧ single_entry sample_class_attribute no_adapt_text no_adapt_int (sample_form "3") admin_world
        = (inr tt,
           set_ui (ui w1 ++ [if success : bool
                             then UiSuccess "Question added successfully!"
                             else UiError
                               "Failed to add question. Check logs for details."])
             w1)
      ∧ count_log is_attempt (log w1)
        = S (count_log is_attempt (log admin_world)).
Proof.
  split.
  - apply (single_entry_validation sample_class_attribute no_adapt_text no_adapt_int (sample_form "")
             admin_world eq_refl).
    apply (bool_decide_unpack _). vm_compute. exact I.
  - apply (single_entry_validation sample_class_attribute no_adapt_text no_adapt_int (sample_form "3")
             admin_world eq_refl).
    apply (bool_decide_unpack _). vm_compute. exact I.
Defined.

(** Time is up at index 1 of three questions, with Previous pressed. *)
Lemma timer_forces_completion_witness :
  take_quiz late_render (world_at 1)
  = submit_quiz sample_questions
      (time_up_world late_render sample_questions
         (set_log [LogFetched 3] (world_at 1)))
  ∧ (∀ r w', take_quiz late_render (world_at 1) = (r, w') →
       current_question (sstate w') = Some 3).
Proof.
  destruct (timer_forces_completion late_render (world_at 1) sample_questions
              (set_log [LogFetched 3] (world_at 1)))
    as (Hrun & Hindex & _).
  - reflexivity.
  - discriminate.
  - unfold time_is_up. vm_compute. discriminate.
  - split; [exact Hrun | exact Hindex].
Defined.

(** C3 as stated fails on a render whose query returns no question: time is
    up, yet the index stays at 2 and nothing is scored. *)
Lemma time_up_without_questions :
  take_quiz late_render world_query_fails
  = (inr tt,
     mkWorld sample_questions [] [] sample_keys sample_state
       [UiError "Failed to retrieve questions.";
        UiWarning "No questions available. Please contact the administrator."]
       [LogFetchError])
  ∧ current_question sample_state = Some 2
  ∧ start_time sample_state = Some 0
  ∧ time_limit sample_state = Some 15
  ∧ now late_render - 0 = minutes 15.
Proof. vm_compute. auto 6. Qed.

(** Previous at the first question, Next at the last one, Next in between. *)
Lemma navigation_bounds_witness :
  current_question
    (sstate (take_quiz (early_render true false) (world_at 0)).2) = Some 0
  ∧ current_question
      (sstate (take_quiz (early_render false true) (world_at 2)).2) = Some 2
  ∧ index_in_bounds 3
      (sstate (take_quiz (early_render false true) (world_at 1)).2).
Proof.
  split_and!.
  - destruct (navigation_bounds (early_render true false) (world_at 0)
                sample_questions (set_log [LogFetched 3] (world_at 0))
                (take_quiz (early_render true false) (world_at 0)).1
                (take_quiz (early_render true false) (world_at 0)).2)
      as (_ & Hnav & _).
    + reflexivity.
    + vm_compute. reflexivity.
    + destruct (Hnav 0) as (Hfirst & _).
      * reflexivity.
      * vm_compute. split; [discriminate | reflexivity].
      * unfold time_is_up. vm_compute. intros H. apply H. reflexivity.
      * apply Hfirst; reflexivity.
  - destruct (navigation_bounds (early_render false true) (world_at 2)
                sample_questions (set_log [LogFetched 3] (world_at 2))
                (take_quiz (early_render false true) (world_at 2)).1
                (take_quiz (early_render false true) (world_at 2)).2)
      as (_ & Hnav & _).
    + reflexivity.
    + vm_compute. reflexivity.
    + destruct (Hnav 2) as (_ & Hlast & _).
      * reflexivity.
      * vm_compute. split; [discriminate | reflexivity].
      * unfold time_is_up. vm_compute. intros H. apply H. reflexivity.
      * apply Hlast; reflexivity.
  - destruct (navigation_bounds (early_render false true) (world_at 1)
                sample_questions (set_log [LogFetched 3] (world_at 1))
                (take_quiz (early_render false true) (world_at 1)).1
                (take_quiz (early_render false true) (world_at 1)).2)
      as (Hbounds & _).
    + reflexivity.
    + vm_compute. reflexivity.
    + apply Hbounds. vm_compute. split; discriminate.
Defined.

(** *** Instances of the invariants *)

(** A record whose question text is [null] is refused. *)
Lemma add_question_requires_columns_witness :
  ∃ w', add_question sample_class_attribute no_adapt_text no_adapt_int (PDict null_text_fields)
          admin_world = (inr false, w')
        ∧ table w' = table admin_world.
Proof.
  apply (add_question_requires_columns sample_class_attribute no_adapt_text no_adapt_int
           null_text_fields "question_text" admin_world).
  - unfold not_null_columns. repeat constructor.
  - vm_compute. reflexivity.
Defined.

(** A record with the key [difficulty] never reaches the backend. *)
Lemma add_question_rejects_unknown_keys_witness :
  add_question sample_class_attribute no_adapt_text no_adapt_int
    extra_key_record admin_world
  = (inr false,
     set_log (log admin_world ++ [LogAddError TypeError])
       (set_pending [] admin_world)).
Proof.
  apply (add_question_rejects_unknown_keys sample_class_attribute
           no_adapt_text no_adapt_int extra_key_record admin_world).
  intros d Hd. injection Hd as <-. exists "difficulty". split.
  - apply (bool_decide_unpack _). vm_compute. exact I.
  - vm_compute. reflexivity.
Defined.

(** The sample form becomes the fourth row, under key 4. *)
Lemma form_insert_round_trip_witness :
  ∃ i k,
    head (keys admin_world) = Some i
    ∧ varchar1 (f_correct_option (sample_form "3")) = Some k
    ∧ table (add_question sample_class_attribute no_adapt_text no_adapt_int
               (form_question_data (sample_form "3")) admin_world).2
      = table admin_world ++ [form_row i k (sample_form "3")].
Proof.
  destruct (form_insert_round_trip sample_class_attribute no_adapt_text
              no_adapt_int (sample_form "3") admin_world
              (add_question sample_class_attribute no_adapt_text no_adapt_int
                 (form_question_data (sample_form "3")) admin_world).2)
    as (i & k & Hi & Hk & _ & _ & Htable & _).
  - reflexivity.
  - vm_compute. reflexivity.
  - exists i, k. split; [exact Hi|]. split; [exact Hk|exact Htable].
Defined.


(** The ids 1, 2, 3 and the one of the added row are distinct. *)
Lemma admin_add_questions_keeps_ids_unique_witness :
  NoDup (id <$> table
           (admin_add_questions sample_class_attribute no_adapt_text no_adapt_int sample_utf8_decode
              sample_json_loads (sample_form "3") admin_world).2).
Proof.
  apply (admin_add_questions_keeps_ids_unique sample_class_attribute no_adapt_text no_adapt_int
           sample_utf8_decode sample_json_loads (sample_form "3") admin_world).
  apply (bool_decide_unpack _). vm_compute. exact I.
Defined.

(** A file that is not UTF-8. *)
Lemma bulk_entry_reports_failure_witness :
  bulk_entry sample_class_attribute no_adapt_text no_adapt_int strict_utf8_decode sample_json_loads
    (upload invalid_utf8) admin_world
  = (inr tt,
     set_ui (ui admin_world
             ++ [UiError "Failed to process the uploaded file."])
       (set_log (log admin_world ++ [LogUploadError UnicodeDecodeError])
          admin_world)).
Proof.
  apply (bulk_entry_reports_failure sample_class_attribute no_adapt_text no_adapt_int
           strict_utf8_decode sample_json_loads (upload invalid_utf8)
           invalid_utf8 UnicodeDecodeError admin_world).
  - reflexivity.
  - left. vm_compute. reflexivity.
Defined.

(** A render on the first of the three sample questions, which has the
    answer B. *)
Lemma take_quiz_never_raises_witness :
  (take_quiz (early_render false true) (world_at 0)).1 = inr tt.
Proof.
  apply (take_quiz_never_raises (early_render false true) (world_at 0)).
  - apply (bool_decide_unpack _). vm_compute. exact I.
  - intros a Ha. injection Ha as <-.
    apply (bool_decide_unpack _). vm_compute. exact I.
  - intros i Hi. injection Hi as <-. vm_compute. discriminate.
  - intros q Hq. injection Hq as <-. exists sample_answers.
    split; [reflexivity|]. exists "B". vm_compute. reflexivity.
Defined.

(** The first render of a new session over the three sample
    questions. *)
Lemma take_quiz_unanswered_raises_witness :
  take_quiz (early_render false false) admin_world
  = (inl StreamlitAPIException,
     mkWorld sample_questions [] [] sample_keys
       (mkSessionState (Some 0) (Some ∅) (Some 0) (Some 15))
       [UiSidebarRemaining (minutes 15 - 10000000);
        UiHeader "Question 1 of 3"; UiWrite "2 + 2 = ?"]
       [LogFetched 3]).
Proof.
  rewrite (take_quiz_unanswered_raises (early_render false false)
             admin_world sample_questions
             (set_log [LogFetched 3] admin_world)
             (mkQuestion 1 "2 + 2 = ?" "3" "4" "5" "6" "B" None)).
  - vm_compute. reflexivity.
  - reflexivity.
  - unfold time_is_up. vm_compute. intros H. apply H. reflexivity.
  - reflexivity.
  - reflexivity.
Defined.

(** From the first sample question: Next, then Previous. *)
Lemma next_then_previous_returns_witness :
  current_question
    (sstate (navigation_buttons (early_render false true) sample_questions
               (world_at 0)).2) = Some 1
  ∧ current_question
      (sstate (navigation_buttons (early_render true false) sample_questions
                 (navigation_buttons (early_render false true)
                    sample_questions (world_at 0)).2).2) = Some 0.
Proof.
  apply (next_then_previous_returns (early_render false true)
           (early_render true false) sample_questions (world_at 0) 0
           (navigation_buttons (early_render false true) sample_questions
              (world_at 0)).1
           (navigation_buttons (early_render true false) sample_questions
              (navigation_buttons (early_render false true)
                 sample_questions (world_at 0)).2).1).
  - reflexivity.
  - vm_compute. split; [discriminate | reflexivity].
  - reflexivity.
  - reflexivity.
  - reflexivity.
  - reflexivity.
  - apply surjective_pairing.
  - apply surjective_pairing.
Defined.

(** From the second sample question: Previous, then Next. *)
Lemma previous_then_next_returns_witness :
  current_question
    (sstate (navigation_buttons (early_render true false) sample_questions
               (world_at 1)).2) = Some 0
  ∧ current_question
      (sstate (navigation_buttons (early_render false true) sample_questions
                 (navigation_buttons (early_render true false)
                    sample_questions (world_at 1)).2).2) = Some 1.
Proof.
  apply (previous_then_next_returns (early_render true false)
           (early_render false true) sample_questions (world_at 1) 1
           (navigation_buttons (early_render true false) sample_questions
              (world_at 1)).1
           (navigation_buttons (early_render false true) sample_questions
              (navigation_buttons (early_render true false)
                 sample_questions (world_at 1)).2).1).
  - reflexivity.
  - vm_compute. split; reflexivity.
  - reflexivity.
  - reflexivity.
  - reflexivity.
  - reflexivity.
  - apply surjective_pairing.
  - apply surjective_pairing.
Defined.

(** The render whose query fails. *)
Lemma take_quiz_without_questions_witness :
  ∃ w', take_quiz late_render world_query_fails = (inr tt, w')
        ∧ sstate w' = sstate world_query_fails
        ∧ last (ui w') = Some no_questions_warning
        ∧ count_log is_submitted (log w')
          = count_log is_submitted (log world_query_fails).
Proof.
  apply (take_quiz_without_questions late_render world_query_fails).
  right. reflexivity.
Defined.

(** A render after the third and last sample question. *)
Lemma completed_quiz_stays_completed_witness :
  current_question
    (sstate (take_quiz (early_render true false) (world_at 3)).2) = Some 3.
Proof.
  destruct (completed_quiz_stays_completed (early_render true false)
              (world_at 3) sample_questions
              (set_log [LogFetched 3] (world_at 3)) 3
              (take_quiz (early_render true false) (world_at 3)).1
              (take_quiz (early_render true false) (world_at 3)).2)
    as (Hindex & _).
  - reflexivity.
  - discriminate.
  - reflexivity.
  - vm_compute. discriminate.
  - unfold time_is_up. vm_compute. intros H. apply H. reflexivity.
  - apply surjective_pairing.
  - exact Hindex.
Defined.

(** Index -4 over three questions. *)
Lemma take_quiz_index_error_witness :
  take_quiz (early_render false false) (world_at (-4))
  = (inl IndexError,
     set_ui (ui (set_log [LogFetched 3] (world_at (-4)))
             ++ [UiSidebarRemaining
                   (remaining (early_render false false)
                      (sstate (world_at (-4))))])
       (set_sstate
          (initialized (early_render false false) (sstate (world_at (-4))))
          (set_log [LogFetched 3] (world_at (-4))))).
Proof.
  apply (take_quiz_index_error (early_render false false) (world_at (-4))
           sample_questions (set_log [LogFetched 3] (world_at (-4))) (-4)).
  - reflexivity.
  - discriminate.
  - reflexivity.
  - vm_compute. reflexivity.
  - unfold time_is_up. vm_compute. intros H. apply H. reflexivity.
Defined.

(** The sample form is added, then the quiz page is rendered on the
    first question. *)
Lemma quiz_after_admin_never_raises_witness :
  (take_quiz (early_render false true)
     (admin_add_questions sample_class_attribute no_adapt_text no_adapt_int
        sample_utf8_decode sample_json_loads (sample_form "3")
        (world_at 0)).2).1 = inr tt.
Proof.
  apply (quiz_after_admin_never_raises sample_class_attribute no_adapt_text
           no_adapt_int sample_utf8_decode sample_json_loads (sample_form "3")
           (early_render false true) (world_at 0)).
  - apply (bool_decide_unpack _). vm_compute. exact I.
  - intros a Ha. injection Ha as <-.
    apply (bool_decide_unpack _). vm_compute. exact I.
  - vm_compute. split; [discriminate | reflexivity].
  - intros q Hq. injection Hq as <-. exists sample_answers.
    split; [reflexivity|]. exists "B". vm_compute. reflexivity.
Defined.
